(** * GCRCatalogs: the DC2 object catalog reader and the e-image reader

    A shallow embedding of [GCRCatalogs/dc2_object.py] and
    [GCRCatalogs/eimage.py], and the properties of the partition accessor
    (default-filled columns, constant-array cache), of partition discovery,
    of the catalog constructor and of the focal-plane tree.

    Python objects are modelled as records; a method that mutates [self]
    takes the object and returns the new object next to its result; a call
    that can raise returns a [result]. *)

From Stdlib Require Import ZArith QArith String Ascii List Lia OrderedTypeEx.
From stdpp Require Import base option list gmap sets strings sorting.

Local Open Scope string_scope.
Local Open Scope Z_scope.

(** ** Exceptions and warnings *)

Inductive exn :=
| ValueError (msg : string)
| RuntimeError (msg : string)
| KeyError (key : string)
| IndexError
| TypeError (msg : string)
| IOError (path : string)
| ZeroDivisionError.

Inductive result (A : Type) :=
| Ok (a : A)
| Raise (e : exn).
Arguments Ok {A} a.
Arguments Raise {A} e.

Global Instance result_ret : MRet result := @Ok.
Global Instance result_bind : MBind result := λ A B f m,
  match m with
  | Ok a => f a
  | Raise e => Raise e
  end.

(** ** Python string operations used by the readers *)

Module Py.

(** [s.split(sep)] for a one-character separator: the pieces between the
    separators, one more than there are separators. *)
Fixpoint split (sep : ascii) (s : string) : list string :=
  match s with
  | EmptyString => [EmptyString]
  | String c s' =>
      if Ascii.eqb c sep then EmptyString :: split sep s'
      else match split sep s' with
           | [] => [String c EmptyString]
           | piece :: pieces => String c piece :: pieces
           end
  end.

(** [sep.join(s)] over the characters of the string [s]. *)
Fixpoint join_chars (sep : string) (s : string) : string :=
  match s with
  | EmptyString => EmptyString
  | String c EmptyString => String c EmptyString
  | String c s' => String c (sep ++ join_chars sep s')
  end.

(** [s.lstrip(c)] for a one-character set. *)
Fixpoint lstrip (c : ascii) (s : string) : string :=
  match s with
  | String c' s' => if Ascii.eqb c' c then lstrip c s' else s
  | EmptyString => EmptyString
  end.

Definition digit_value (c : ascii) : option Z :=
  let n := Z.of_N (N_of_ascii c) in
  if (48 <=? n) && (n <=? 57) then Some (n - 48) else None.

Definition is_digit (c : ascii) : bool :=
  match digit_value c with Some _ => true | None => false end.

Fixpoint all_digits (s : string) : bool :=
  match s with
  | EmptyString => true
  | String c s' => is_digit c && all_digits s'
  end.

(** [s.isdigit()] over ASCII: non-empty and every character a digit. *)
Definition isdigit (s : string) : bool :=
  match s with
  | EmptyString => false
  | _ => all_digits s
  end.

Fixpoint int_digits (acc : Z) (s : string) : option Z :=
  match s with
  | EmptyString => Some acc
  | String c s' =>
      match digit_value c with
      | Some d => int_digits (10 * acc + d) s'
      | None => None
      end
  end.

(** [int(s)] for a string: an optional sign and at least one decimal digit;
    [None] stands for the [ValueError] of any other text. *)
Definition int (s : string) : option Z :=
  match s with
  | EmptyString => None
  | String "-" (String _ _ as ds) => Z.opp <$> int_digits 0 ds
  | String "+" (String _ _ as ds) => int_digits 0 ds
  | _ => int_digits 0 s
  end.

(** [s.endswith(suffix)] *)
Definition endswith (s suffix : string) : bool :=
  let n := String.length s in
  let k := String.length suffix in
  (k <=? n)%nat && String.eqb (substring (n - k) k s) suffix.

(** [s.startswith(prefix)] *)
Definition startswith (s pre : string) : bool :=
  String.prefix pre s.

End Py.

(** ** numpy arrays and pandas storers, as far as the readers use them *)

(** The dtypes the schema files and the readers name. *)
Inductive dtype := np_float64 | np_int64 | np_bool | np_str.

(** [np.dtype(d).str] *)
Definition dtype_str (d : dtype) : string :=
  match d with
  | np_float64 => "<f8"
  | np_int64 => "<i8"
  | np_bool => "|b1"
  | np_str => "<U0"
  end.

(** A Python scalar that a schema can give as a default.  A NaN is a float
    object that is equal to nothing but found in a dict by identity, so it
    carries the identity of its object: [np_nan] is numpy's own. *)
Inductive scalar :=
| PyNaN (obj : nat)
| PyInt (z : Z)
| PyBool (b : bool)
| PyStr (s : string).

Definition np_nan : scalar := PyNaN 0.

Global Instance dtype_eq_dec : EqDecision dtype.
Proof. solve_decision. Defined.
Global Instance scalar_eq_dec : EqDecision scalar.
Proof. solve_decision. Defined.
Global Instance scalar_countable : Countable scalar.
Proof.
  refine (inj_countable'
    (λ v, match v with
          | PyNaN o => inl o
          | PyInt z => inr (inl z)
          | PyBool b => inr (inr (inl b))
          | PyStr s => inr (inr (inr s))
          end)
    (λ e, match e with
          | inl o => PyNaN o
          | inr (inl z) => PyInt z
          | inr (inr (inl b)) => PyBool b
          | inr (inr (inr s)) => PyStr s
          end) _).
  by intros [].
Defined.

(** The identity of an array object: the values of a stored column, or the
    n-th constant array an accessor has allocated. *)
Inductive array_object :=
| StoredColumn (name : string)
| ConstantFill (serial : nat).

(** A one-dimensional array.  [arr_data] lists the elements as the Python
    values they were made from; [arr_dtype] is the element type numpy holds
    them in.  The conversion numpy applies to an element for its dtype is
    numpy's own and is not evaluated here; it changes nothing for a value of
    the dtype's own kind. *)
Record ndarray := {
  arr_object : array_object;
  arr_dtype : dtype;
  arr_data : list scalar;
  arr_writeable : bool
}.

Global Instance array_object_eq_dec : EqDecision array_object.
Proof. solve_decision. Defined.
Global Instance ndarray_eq_dec : EqDecision ndarray.
Proof. solve_decision. Defined.


(** A column of a data frame and the frame a storer reads. *)
Record column := { col_dtype : dtype; col_values : list scalar }.

Abbreviation DataFrame := (gmap string column).

(** [df[key].values] *)
Definition values (key : string) (c : column) : ndarray :=
  {| arr_object := StoredColumn key; arr_dtype := col_dtype c;
     arr_data := col_values c; arr_writeable := true |}.

(** A pandas storer of one HDF5 group.  Both storage layouts keep the names
    of the frame's columns and its number of rows in the group's metadata;
    [read] loads the frame.  The file behind a storer is taken to stay open
    and readable. *)
Record Storer := {
  st_is_table : bool;
  st_format_type : string;
  st_nrows : nat;
  st_frame : DataFrame
}.

Definition non_index_axes_0_1 (s : Storer) : list string := (map_to_list (st_frame s)).*1.
Definition group_axis0 (s : Storer) : list string := (map_to_list (st_frame s)).*1.
Definition group_axis1_nrows (s : Storer) : nat := st_nrows s.
Definition read (s : Storer) : DataFrame := st_frame s.

(** An open or closed [pd.HDFStore]: its groups in iteration order. *)
Record HDFStore := {
  hs_path : string;
  is_open : bool;
  hs_groups : list (string * Storer)
}.

Fixpoint assoc {A} (key : string) (l : list (string * A)) : option A :=
  match l with
  | [] => None
  | (k, v) :: l' => if String.eqb k key then Some v else assoc key l'
  end.

Definition get_storer (fh : HDFStore) (key : string) : option Storer :=
  assoc key (hs_groups fh).

(** ** Schema *)

(** One entry of the schema: [{dtype: ..., default: ...}], either key
    optional. *)
Record schema_entry := {
  se_dtype : option dtype;
  se_default : option scalar
}.

Abbreviation Schema := (gmap string schema_entry).

(** ** [TableWrapper]: the accessor of one partition *)

Module TableWrapper.

(** What an accessor did to its storer or its caches, in order; kept beside
    the object to state when a read happens. *)
Inductive event :=
| ReadFrame
| ReadColumns
| ReadNrows
| NewConstant (key : string * scalar).

Record t := {
  storer : Storer;
  is_table : bool;
  _schema : Schema;
  _columns : option (gset string);
  _len : option nat;
  _cache : option DataFrame;
  _constant_arrays : gmap (string * scalar) ndarray;
  allocated : nat;
  trace : list event
}.

Definition set_schema (s : Schema) (self : t) : t :=
  {| storer := storer self; is_table := is_table self; _schema := s;
     _columns := _columns self; _len := _len self; _cache := _cache self;
     _constant_arrays := _constant_arrays self;
     allocated := allocated self; trace := trace self |}.

Definition set_columns (c : option (gset string)) (self : t) : t :=
  {| storer := storer self; is_table := is_table self; _schema := _schema self;
     _columns := c; _len := _len self; _cache := _cache self;
     _constant_arrays := _constant_arrays self;
     allocated := allocated self; trace := trace self |}.

Definition set_len (n : option nat) (self : t) : t :=
  {| storer := storer self; is_table := is_table self; _schema := _schema self;
     _columns := _columns self; _len := n; _cache := _cache self;
     _constant_arrays := _constant_arrays self;
     allocated := allocated self; trace := trace self |}.

Definition set_cache (c : option DataFrame) (self : t) : t :=
  {| storer := storer self; is_table := is_table self; _schema := _schema self;
     _columns := _columns self; _len := _len self; _cache := c;
     _constant_arrays := _constant_arrays self;
     allocated := allocated self; trace := trace self |}.

Definition set_constant_arrays (m : gmap (string * scalar) ndarray) (n : nat) (self : t) : t :=
  {| storer := storer self; is_table := is_table self; _schema := _schema self;
     _columns := _columns self; _len := _len self; _cache := _cache self;
     _constant_arrays := m; allocated := n; trace := trace self |}.

Definition log (e : event) (self : t) : t :=
  {| storer := storer self; is_table := is_table self; _schema := _schema self;
     _columns := _columns self; _len := _len self; _cache := _cache self;
     _constant_arrays := _constant_arrays self;
     allocated := allocated self; trace := trace self ++ [e] |}.

(** [__init__(self, file_handle, key, schema=None)] *)
Definition init (file_handle : HDFStore) (key : string) (schema : option Schema) : result t :=
  if negb (is_open file_handle) then Raise (ValueError "file handle has been closed!")
  else
    match get_storer file_handle key with
    | None => Raise (KeyError key)
    | Some st =>
        if negb (st_is_table st) && negb (String.eqb (st_format_type st) "fixed")
        then Raise (ValueError "storer format type not supported!")
        else Ok {| storer := st; is_table := st_is_table st;
                   _schema := match schema with None => ∅ | Some s => s end;
                   _columns := None; _len := None; _cache := None;
                   _constant_arrays := ∅; allocated := 0%nat; trace := [] |}
    end.

(** The [columns] property. *)
Definition columns (self : t) : gset string * t :=
  match _columns self with
  | Some c => (c, self)
  | None =>
      let c : gset string :=
        if is_table self then list_to_set (non_index_axes_0_1 (storer self))
        else list_to_set (group_axis0 (storer self)) in
      (c, set_columns (Some c) (log ReadColumns self))
  end.

(** [__len__] *)
Definition len (self : t) : nat * t :=
  match _len self with
  | Some n => (n, self)
  | None =>
      let n := if is_table self then st_nrows (storer self)
               else group_axis1_nrows (storer self) in
      (n, set_len (Some n) (log ReadNrows self))
  end.

(** [__contains__] *)
Definition contains (self : t) (item : string) : bool * t :=
  let '(c, self) := columns self in (bool_decide (item ∈ c), self).

(** [_generate_constant_array(self, dtype, value)] *)
Definition _generate_constant_array (self : t) (dt : dtype) (value : scalar) : ndarray * t :=
  let key := (dtype_str dt, value) in
  match _constant_arrays self !! key with
  | Some a => (a, self)
  | None =>
      let '(n, self) := len self in
      let a := {| arr_object := ConstantFill (allocated self); arr_dtype := dt;
                  arr_data := replicate n value; arr_writeable := false |} in
      (a, log (NewConstant key)
            (set_constant_arrays (<[key:=a]> (_constant_arrays self))
                                 (S (allocated self)) self))
  end.

(** [_get_constant_array(self, key)] *)
Definition _get_constant_array (self : t) (key : string) : ndarray * t :=
  let schema_this := _schema self !! key in
  _generate_constant_array self
    (default np_float64 (schema_this ≫= se_dtype))
    (default np_nan (schema_this ≫= se_default)).

(** The first statement of [__getitem__]:
    [if self._cache is None: self._cache = self.storer.read()]. *)
Definition fill_cache (self : t) : t :=
  match _cache self with
  | None => set_cache (Some (read (storer self))) (log ReadFrame self)
  | Some _ => self
  end.

(** [__getitem__(self, key)], also bound to [get]. *)
Definition getitem (self : t) (key : string) : ndarray * t :=
  let self := fill_cache self in
  match default ∅ (_cache self) !! key with
  | Some c => (values key c, self)
  | None => _get_constant_array self key
  end.

Definition get := getitem.

(** [clear_cache(self)] *)
Definition clear_cache (self : t) : t :=
  set_constant_arrays ∅ (allocated self)
    (set_cache None (set_len None (set_columns None self))).

End TableWrapper.

(** ** [ObjectTableWrapper]: an accessor that knows its tract and patch *)

Module ObjectTableWrapper.

Record t := {
  tract : Z;
  patch : string;
  table : TableWrapper.t
}.

(** [__init__(self, file_handle, key, schema=None)] *)
Definition init (file_handle : HDFStore) (key : string) (schema : option Schema) : result t :=
  let key_items := Py.split "_" key in
  item1 ← from_option Ok (Raise IndexError) (key_items !! 1%nat);
  tract ← from_option Ok (Raise (ValueError "invalid literal for int()")) (Py.int item1);
  item2 ← from_option Ok (Raise IndexError) (key_items !! 2%nat);
  let patch := Py.join_chars "," item2 in
  self ← TableWrapper.init file_handle key schema;
  let schema1 :=
    <["tract" := {| se_dtype := Some np_int64; se_default := Some (PyInt tract) |}]>
      (TableWrapper._schema self) in
  let schema2 :=
    <["patch" := {| se_dtype := Some np_str; se_default := Some (PyStr patch) |}]>
      schema1 in
  mret {| tract := tract; patch := patch;
          table := TableWrapper.set_schema schema2 self |}.

(** The [tract_and_patch] property: the dict [{'tract': .., 'patch': ..}]. *)
Definition tract_and_patch (self : t) : Z * string := (tract self, patch self).

Definition with_table (self : t) (tw : TableWrapper.t) : t :=
  {| tract := tract self; patch := patch self; table := tw |}.

(** The inherited [get], [columns] and [clear_cache]. *)
Definition get (self : t) (key : string) : ndarray * t :=
  let '(a, tw) := TableWrapper.get (table self) key in (a, with_table self tw).

Definition columns (self : t) : gset string * t :=
  let '(c, tw) := TableWrapper.columns (table self) in (c, with_table self tw).

Definition clear_cache (self : t) : t :=
  with_table self (TableWrapper.clear_cache (table self)).

End ObjectTableWrapper.

(** ** [create_basic_flag_mask] *)

(** The elements of a bool array. *)
Definition bool_elements (a : ndarray) : option (list bool) :=
  match arr_dtype a with
  | np_bool => mapM (λ v, match v with PyBool b => Some b | _ => None end) (arr_data a)
  | _ => None
  end.

Definition bool_array (l : list bool) : ndarray :=
  {| arr_object := ConstantFill 0; arr_dtype := np_bool;
     arr_data := PyBool <$> l; arr_writeable := true |}.

(** [out &= (~flag)] on one-dimensional bool arrays, with numpy's
    broadcasting of a one-element operand; [None] is the error of operands
    whose shapes do not fit. *)
Definition iand_not (out flag : list bool) : option (list bool) :=
  if decide (length flag = length out) then
    Some (zip_with (λ o f, o && negb f) out flag)
  else
    match flag with
    | [f] => Some ((λ o, o && negb f) <$> out)
    | _ => None
    end.

Fixpoint mask_loop (out : list bool) (flags : list ndarray) : result (list bool) :=
  match flags with
  | [] => Ok out
  | flag :: rest =>
      match bool_elements flag with
      | None => Raise (TypeError "operand is not a bool array")
      | Some f =>
          match iand_not out f with
          | None => Raise (ValueError "operands could not be broadcast together")
          | Some out' => mask_loop out' rest
          end
      end
  end.

(** [create_basic_flag_mask] over its argument tuple [flags]: the mask as the elements of the bool
    array [out]. *)
Definition create_basic_flag_mask (flags : list ndarray) : result (list bool) :=
  match flags with
  | [] => Raise IndexError
  | flag0 :: _ => mask_loop (replicate (length (arr_data flag0)) true) flags
  end.

(** ** Quantity modifiers *)

(** The functions the modifiers name. *)
Inductive func :=
| np_rad2deg
| flag_mask
| cmodel_mag
| cmodel_magerr
| np_divide
| psf_fwhm (pixel_scale : Q).

(** A modifier: a native column name, or a function and the native columns
    it is applied to. *)
Inductive modifier :=
| Native (name : string)
| Apply (f : func) (names : list string).

Definition not_good_flags : list string :=
  [ "base_PixelFlags_flag_edge";
    "base_PixelFlags_flag_interpolatedCenter";
    "base_PixelFlags_flag_saturatedCenter";
    "base_PixelFlags_flag_crCenter";
    "base_PixelFlags_flag_bad";
    "base_PixelFlags_flag_suspectCenter";
    "base_PixelFlags_flag_clipped" ].

Definition axes : list string := ["xx"; "yy"; "xy"].

(** The body of [for band in bands]. *)
Definition band_modifiers (pixel_scale : Q) (modifiers : gmap string modifier) (band : string)
  : gmap string modifier :=
  let m := <["mag_" ++ band := Native (band ++ "_mag")]> modifiers in
  let m := <["magerr_" ++ band := Native (band ++ "_mag_err")]> m in
  let m := <["psFlux_" ++ band := Native (band ++ "_base_PsfFlux_flux")]> m in
  let m := <["psFlux_flag_" ++ band := Native (band ++ "_base_PsfFlux_flag")]> m in
  let m := <["psFluxErr_" ++ band := Native (band ++ "_base_PsfFlux_fluxSigma")]> m in
  let m := <["I_flag_" ++ band := Native (band ++ "_base_SdssShape_flag")]> m in
  let m := foldl (λ m ax,
             <["I" ++ ax ++ "PSF_" ++ band := Native (band ++ "_base_SdssShape_psf_" ++ ax)]>
               (<["I" ++ ax ++ "_" ++ band := Native (band ++ "_base_SdssShape_" ++ ax)]> m))
             m axes in
  let m := <["mag_" ++ band ++ "_cModel" :=
               Apply cmodel_mag [band ++ "_modelfit_CModel_flux"]]> m in
  let m := <["magerr_" ++ band ++ "_cModel" :=
               Apply cmodel_magerr [band ++ "_modelfit_CModel_flux";
                                    band ++ "_modelfit_CModel_fluxSigma"]]> m in
  let m := <["snr_" ++ band ++ "_cModel" :=
               Apply np_divide [band ++ "_modelfit_CModel_flux";
                                band ++ "_modelfit_CModel_fluxSigma"]]> m in
  <["psf_fwhm_" ++ band :=
      Apply (psf_fwhm pixel_scale) [band ++ "_base_SdssShape_psf_xx";
                                    band ++ "_base_SdssShape_psf_yy";
                                    band ++ "_base_SdssShape_psf_xy"]]> m.

(** [_generate_modifiers(pixel_scale, bands)] *)
Definition _generate_modifiers (pixel_scale : Q) (bands : list string) : gmap string modifier :=
  let modifiers : gmap string modifier :=
    list_to_map
      [ ("objectId", Native "id");
        ("parentObjectId", Native "parent");
        ("ra", Apply np_rad2deg ["coord_ra"]);
        ("dec", Apply np_rad2deg ["coord_dec"]);
        ("x", Native "base_SdssCentroid_x");
        ("y", Native "base_SdssCentroid_y");
        ("xErr", Native "base_SdssCentroid_xSigma");
        ("yErr", Native "base_SdssCentroid_ySigma");
        ("xy_flag", Native "base_SdssCentroid_flag");
        ("psNdata", Native "base_PsfFlux_area");
        ("extendedness", Native "base_ClassificationExtendedness_value");
        ("blendedness", Native "base_Blendedness_abs_flux") ] in
  let modifiers := <["good" := Apply flag_mask not_good_flags]> modifiers in
  let modifiers := <["clean" := Apply flag_mask ("deblend_skipped" :: not_good_flags)]> modifiers in
  let modifiers := <["I_flag" := Native "ext_shapeHSM_HsmSourceMoments_flag"]> modifiers in
  let modifiers := foldl (λ m ax,
                     <["I" ++ ax ++ "PSF" := Native ("base_SdssShape_psf_" ++ ax)]>
                       (<["I" ++ ax := Native ("ext_shapeHSM_HsmSourceMoments_" ++ ax)]> m))
                     modifiers axes in
  foldl (band_modifiers pixel_scale) modifiers bands.

(** How the catalog framework evaluates a flag-mask modifier over one
    partition: the named native columns are fetched in order and handed to
    the function.  The functions on floating-point columns are not
    evaluated here. *)
Definition apply_modifier (fetch : string → ndarray) (m : modifier) : option (result (list bool)) :=
  match m with
  | Apply flag_mask names => Some (create_basic_flag_mask (fetch <$> names))
  | _ => None
  end.

(** ** Name patterns *)

(** A compiled pattern as [re.match] uses it on a name. *)
Definition pattern := string → bool.

Module Re.

Fixpoint strip_prefix (p s : string) : option string :=
  match p, s with
  | EmptyString, _ => Some s
  | String a p', String b s' => if Ascii.eqb a b then strip_prefix p' s' else None
  | String _ _, EmptyString => None
  end.

(** The longest prefix of digits and what follows it. *)
Fixpoint span_digits (s : string) : string * string :=
  match s with
  | String c s' =>
      if Py.is_digit c then let '(ds, rest) := span_digits s' in (String c ds, rest)
      else (EmptyString, s)
  | EmptyString => (EmptyString, EmptyString)
  end.

(** [\d+] *)
Definition digits1 (s : string) : option (string * string) :=
  match span_digits s with
  | (EmptyString, _) => None
  | r => Some r
  end.

(** [$]: at the end, or before a final newline. *)
Definition at_end (s : string) : bool :=
  match s with
  | EmptyString => true
  | String c EmptyString => Ascii.eqb c "010"
  | _ => false
  end.

Definition alt (p q s : string) : option string :=
  match strip_prefix p s with
  | Some r => Some r
  | None => strip_prefix q s
  end.

(** [FILE_PATTERN = r'(?:merged|object)_tract_\d+\.hdf5$'] *)
Definition FILE_PATTERN : pattern := λ s,
  match r ← alt "merged" "object" s; r ← strip_prefix "_tract_" r; digits1 r with
  | Some (_, rest) =>
      match strip_prefix ".hdf5" rest with
      | Some rest => at_end rest
      | None => false
      end
  | None => false
  end.

(** [\d\d$] *)
Definition two_digits_end (s : string) : bool :=
  match s with
  | String a (String b rest) => Py.is_digit a && Py.is_digit b && at_end rest
  | _ => false
  end.

(** [GROUP_PATTERN = r'(?:coadd|object)_\d+_\d\d$'] *)
Definition GROUP_PATTERN : pattern := λ s,
  match r ← alt "coadd" "object" s; r ← strip_prefix "_" r; digits1 r with
  | Some (_, rest) =>
      match strip_prefix "_" rest with
      | Some rest => two_digits_end rest
      | None => false
      end
  | None => false
  end.

End Re.

(** ** The files the readers see *)

(** [os.path.join(a, b)] *)
Definition path_join (a b : string) : string :=
  if Py.startswith b "/" then b
  else if String.eqb a "" || Py.endswith a "/" then a ++ b
  else a ++ "/" ++ b.

(** The world outside: the directories with the names [os.listdir] reports
    for them (in the order it reports them), the HDF5 files that
    [pd.HDFStore] can open with their groups, and the YAML files with the
    document [yaml.load] reads from them ([None] for an empty document). *)
Record World := {
  directories : gmap string (list string);
  hdf5_files : gmap string (list (string * Storer));
  yaml_files : gmap string (option Schema)
}.

(** ** [DC2ObjectCatalog] *)

Module DC2ObjectCatalog.

Inductive warning :=
| CannotAccess (file_path : string)
| IncorrectGroupName (file_name key : string)
| NoSchemaFound (schema_path : string)
| FallingBack.

(** The keyword arguments of the constructor; [None] for one not given. *)
Record Config := {
  base_dir : string;
  filename_pattern : option pattern;
  groupname_pattern : option pattern;
  schema_path : option string;
  pixel_scale : option Q;
  use_cache : option bool
}.

(** What the constructor's helpers change as they run: the table of file
    handles of the catalog and the warnings given so far. *)
Record state := {
  _file_handles : gmap string HDFStore;
  warnings : list warning
}.

Definition M (A : Type) : Type := state → result A * state.

Global Instance M_ret : MRet M := λ A a st, (Ok a, st).
Global Instance M_bind : MBind M := λ A B f m st,
  match m st with
  | (Ok a, st') => f a st'
  | (Raise e, st') => (Raise e, st')
  end.

Definition raise {A} (e : exn) : M A := λ st, (Raise e, st).
Definition lift {A} (r : result A) : M A := λ st, (r, st).
Definition warn (w : warning) : M unit := λ st,
  (Ok (), {| _file_handles := _file_handles st; warnings := warnings st ++ [w] |}).

(** [pd.HDFStore(file_path, 'r')] *)
Definition HDFStore_open (W : World) (file_path : string) : result HDFStore :=
  match hdf5_files W !! file_path with
  | Some groups => Ok {| hs_path := file_path; is_open := true; hs_groups := groups |}
  | None => Raise (IOError file_path)
  end.

(** [_open_hdf5(self, file_path)] *)
Definition _open_hdf5 (W : World) (file_path : string) : M HDFStore := λ st,
  let cached :=
    match _file_handles st !! file_path with
    | Some fh => if is_open fh then Some fh else None
    | None => None
    end in
  match cached with
  | Some fh => (Ok fh, st)
  | None =>
      match HDFStore_open W file_path with
      | Ok fh => (Ok fh, {| _file_handles := <[file_path:=fh]> (_file_handles st);
                            warnings := warnings st |})
      | Raise e => (Raise e, st)
      end
  end.

(** [os.path.basename(path)] *)
Definition basename (path : string) : string :=
  List.last (Py.split "/" path) "".

(** The loop [for key in fh] of [_generate_datasets]. *)
Fixpoint scan_groups (groupname_re : pattern) (schema : option Schema) (fh : HDFStore)
    (file_path : string) (keys : list string) (datasets : list ObjectTableWrapper.t)
  : M (list ObjectTableWrapper.t) :=
  match keys with
  | [] => mret datasets
  | key :: rest =>
      if groupname_re (Py.lstrip "/" key) then
        dataset ← lift (ObjectTableWrapper.init fh key schema);
        scan_groups groupname_re schema fh file_path rest (datasets ++ [dataset])
      else
        _ ← warn (IncorrectGroupName (basename file_path) key);
        scan_groups groupname_re schema fh file_path rest datasets
  end.

(** The loop [for fname in sorted(os.listdir(self.base_dir))]. *)
Fixpoint scan_files (W : World) (base_dir : string) (filename_re groupname_re : pattern)
    (schema : option Schema) (fnames : list string) (datasets : list ObjectTableWrapper.t)
  : M (list ObjectTableWrapper.t) :=
  match fnames with
  | [] => mret datasets
  | fname :: rest =>
      if negb (filename_re fname) then
        scan_files W base_dir filename_re groupname_re schema rest datasets
      else
        let file_path := path_join base_dir fname in
        λ st,
          match _open_hdf5 W file_path st with
          | (Raise (IOError _), st') =>
              (_ ← warn (CannotAccess file_path);
               scan_files W base_dir filename_re groupname_re schema rest datasets) st'
          | (Raise e, st') => (Raise e, st')
          | (Ok fh, st') =>
              (datasets ← scan_groups groupname_re schema fh file_path (hs_groups fh).*1 datasets;
               scan_files W base_dir filename_re groupname_re schema rest datasets) st'
          end
  end.

(** Python compares strings by code point. *)
Definition str_le (a b : string) : Prop := String.leb a b = true.
Global Instance str_le_dec : RelDecision str_le.
Proof. intros a b. unfold str_le. apply _. Defined.

(** [sorted(names)] *)
Definition sorted (names : list string) : list string := merge_sort str_le names.

(** [os.listdir(path)] *)
Definition listdir (W : World) (path : string) : result (list string) :=
  match directories W !! path with
  | Some names => Ok names
  | None => Raise (IOError path)
  end.

(** [_generate_datasets(self)] *)
Definition _generate_datasets (W : World) (base_dir : string) (filename_re groupname_re : pattern)
    (schema : option Schema) : M (list ObjectTableWrapper.t) :=
  names ← lift (listdir W base_dir);
  scan_files W base_dir filename_re groupname_re schema (sorted names) [].

(** [_generate_schema_from_yaml(schema_path)] *)
Definition _generate_schema_from_yaml (W : World) (schema_path : string) : M (option Schema) :=
  match yaml_files W !! schema_path with
  | None => raise (IOError schema_path)
  | Some schema =>
      _ ← match schema with
          | None => warn (NoSchemaFound schema_path)
          | Some _ => mret ()
          end;
      mret schema
  end.

(** The statements of the constructor that set [self._schema]: [None], or
    what the schema file holds when the path is not empty and exists. *)
Definition load_schema (W : World) (schema_path : string) : M (option Schema) :=
  if negb (String.eqb schema_path "") && bool_decide (is_Some (yaml_files W !! schema_path))
  then _generate_schema_from_yaml W schema_path
  else mret None.

(** [_generate_columns(datasets)]: the union of the partitions' columns;
    reading the [columns] property fills each accessor's own cache of it. *)
Fixpoint _generate_columns (datasets : list ObjectTableWrapper.t)
  : gset string * list ObjectTableWrapper.t :=
  match datasets with
  | [] => (∅, [])
  | dataset :: rest =>
      let '(c, dataset') := ObjectTableWrapper.columns dataset in
      let '(cs, rest') := _generate_columns rest in
      (c ∪ cs, dataset' :: rest')
  end.

(** [[col[0] for col in columns if len(col) == 5 and col.endswith('_mag')]] *)
Definition detect_bands (columns : list string) : list string :=
  omap (λ col,
          if ((String.length col =? 5)%nat && Py.endswith col "_mag")%bool
          then Some (substring 0 1 col) else None)
       columns.

(** The truth value of [self._schema]: neither [None] nor an empty dict. *)
Definition schema_truthy (schema : option Schema) : bool :=
  match schema with
  | Some s => bool_decide (s ≠ ∅)
  | None => false
  end.

(** The attributes of a constructed catalog other than its file handles,
    which keep living in the [state]. *)
Record t := {
  self_base_dir : string;
  _filename_re : pattern;
  _groupname_re : pattern;
  _schema_path : string;
  self_pixel_scale : Q;
  self_use_cache : bool;
  _schema : option Schema;
  _datasets : list ObjectTableWrapper.t;
  _columns : gset string;
  _quantity_modifiers : gmap string modifier
}.

Definition SCHEMA_PATH : string := "schema.yaml".

(** [_subclass_init(self, **kwargs)], up to the quantity modifiers; the
    last statement, which reads the packaged description of the
    quantities, is left out. *)
Definition _subclass_init (W : World) (kwargs : Config) : M t :=
  let base_dir := base_dir kwargs in
  let filename_re := default Re.FILE_PATTERN (filename_pattern kwargs) in
  let groupname_re := default Re.GROUP_PATTERN (groupname_pattern kwargs) in
  let schema_path := default (path_join base_dir SCHEMA_PATH) (schema_path kwargs) in
  let pixel_scale := default (2 # 10)%Q (pixel_scale kwargs) in
  let use_cache := default true (use_cache kwargs) in
  if negb (bool_decide (is_Some (directories W !! base_dir))) then
    raise (ValueError "`base_dir` is not a valid directory")
  else
    schema ← load_schema W schema_path;
    datasets ← _generate_datasets W base_dir filename_re groupname_re schema;
    match datasets with
    | [] => raise (RuntimeError "No catalogs were found in `base_dir`")
    | _ =>
        '(columns, datasets) ←
          (if schema_truthy schema then mret (dom (default ∅ schema), datasets)
           else _ ← warn FallingBack; mret (_generate_columns datasets));
        let bands := detect_bands (elements columns) in
        mret {| self_base_dir := base_dir; _filename_re := filename_re;
                _groupname_re := groupname_re; _schema_path := schema_path;
                self_pixel_scale := pixel_scale; self_use_cache := use_cache;
                _schema := schema; _datasets := datasets; _columns := columns;
                _quantity_modifiers := _generate_modifiers pixel_scale bands |}
    end.

Definition initial : state := {| _file_handles := ∅; warnings := [] |}.

(** Constructing a catalog. *)
Definition construct (W : World) (kwargs : Config) : result t * state :=
  _subclass_init W kwargs initial.

(** [close()] of a file handle. *)
Definition HDFStore_close (fh : HDFStore) : HDFStore :=
  {| hs_path := hs_path fh; is_open := false; hs_groups := hs_groups fh |}.

(** [close_all_file_handles(self)]: the handles it has closed, and the
    state with an empty table. *)
Definition close_all_file_handles (st : state) : list HDFStore * state :=
  (HDFStore_close <$> (map_to_list (_file_handles st)).*2,
   {| _file_handles := ∅; warnings := warnings st |}).

Definition set_datasets (datasets : list ObjectTableWrapper.t) (self : t) : t :=
  {| self_base_dir := self_base_dir self; _filename_re := _filename_re self;
     _groupname_re := _groupname_re self; _schema_path := _schema_path self;
     self_pixel_scale := self_pixel_scale self; self_use_cache := self_use_cache self;
     _schema := _schema self; _datasets := datasets; _columns := _columns self;
     _quantity_modifiers := _quantity_modifiers self |}.


(** The [available_tracts] property:
    [sorted(set(dataset.tract for dataset in self._datasets))]. *)
Definition available_tracts (self : t) : list Z :=
  merge_sort Z.le
    (elements (list_to_set (ObjectTableWrapper.tract <$> _datasets self) : gset Z)).

(** [clear_cache(self)] *)
Definition clear_cache (self : t) : t :=
  set_datasets (ObjectTableWrapper.clear_cache <$> _datasets self) self.

Definition _native_filter_quantities : gset string := {[ "tract"; "patch" ]}.

(** [_generate_native_quantity_list(self)] *)
Definition _generate_native_quantity_list (self : t) : gset string :=
  _columns self ∪ _native_filter_quantities.

(** What the caller of the generator does with the [get] it is handed: it
    looks up a list of native quantities. *)
Fixpoint fetch (dataset : ObjectTableWrapper.t) (quantities : list string)
  : list ndarray * ObjectTableWrapper.t :=
  match quantities with
  | [] => ([], dataset)
  | q :: rest =>
      let '(a, dataset) := ObjectTableWrapper.get dataset q in
      let '(arrays, dataset) := fetch dataset rest in
      (a :: arrays, dataset)
  end.

(** The loop of [_iter_native_dataset]: [native_filters] is the predicate
    [native_filters.check_scalar] when filters are given; for every
    partition that passes, the caller fetches its quantities from the
    yielded [get], and the cache is cleared when the catalog does not keep
    caches.  The result lists what was fetched at each yield and the
    partitions afterwards. *)
Fixpoint iter_loop (use_cache : bool) (native_filters : option (Z * string → bool))
    (quantities : list string) (datasets : list ObjectTableWrapper.t)
  : list (list ndarray) * list ObjectTableWrapper.t :=
  match datasets with
  | [] => ([], [])
  | dataset :: rest =>
      if match native_filters with
         | None => true
         | Some check_scalar => check_scalar (ObjectTableWrapper.tract_and_patch dataset)
         end
      then
        let '(arrays, dataset) := fetch dataset quantities in
        let dataset := if negb use_cache then ObjectTableWrapper.clear_cache dataset
                       else dataset in
        let '(yields, rest) := iter_loop use_cache native_filters quantities rest in
        (arrays :: yields, dataset :: rest)
      else
        let '(yields, rest) := iter_loop use_cache native_filters quantities rest in
        (yields, dataset :: rest)
  end.

(** [_iter_native_dataset(self, native_filters=None)], run to its end. *)
Definition _iter_native_dataset (self : t) (native_filters : option (Z * string → bool))
    (quantities : list string) : list (list ndarray) * t :=
  let '(yields, datasets) :=
    iter_loop (self_use_cache self) native_filters quantities (_datasets self) in
  (yields, set_datasets datasets self).

End DC2ObjectCatalog.

(** ** The e-image reader: focal planes, rafts and sensors *)

Module EImage.

(** Pixel data, as far as the reader decides it: the image stored in a file,
    or an image rescaled by [skimage.transform.rescale]. *)
Inductive image :=
| FitsFile_data (path : string)
| rescale (data : image) (scale : Q).

(** [float(default_rebinning or 1)] *)
Definition rebinning_or_1 (default_rebinning : option Q) : Q :=
  match default_rebinning with
  | Some r => if Qeq_bool r 0 then 1%Q else r
  | None => 1%Q
  end.

Record Sensor := {
  path : string;
  s_name : string;
  raft : string;
  s_visit : string;
  default_rebinning : Q
}.

(** [Sensor.__init__(self, path, name, raft, visit, default_rebinning=None)] *)
Definition Sensor_init (path name raft visit : string) (default_rebinning : option Q) : Sensor :=
  {| path := path; s_name := name; raft := raft; s_visit := visit;
     default_rebinning := rebinning_or_1 default_rebinning |}.

(** [Sensor.get_data(self, rebinning=None)] *)
Definition get_data (self : Sensor) (rebinning : option Q) : result image :=
  let data := FitsFile_data (path self) in
  let rebinning := default (default_rebinning self) rebinning in
  if negb (Qeq_bool rebinning 1) then
    if Qeq_bool rebinning 0 then Raise ZeroDivisionError
    else Ok (rescale data (1 / rebinning)%Q)
  else Ok data.

Record Raft := {
  r_name : string;
  r_visit : string;
  sensors : gmap string Sensor
}.

Definition Raft_init (name visit : string) : Raft :=
  {| r_name := name; r_visit := visit; sensors := ∅ |}.

(** [Raft.add_sensor(self, sensor)]: the raft afterwards and what was
    printed. *)
Definition Raft_add_sensor (self : Raft) (sensor : Sensor) : Raft * list string :=
  if bool_decide (raft sensor = r_name self)
     && bool_decide (s_visit sensor = r_visit self)
     && bool_decide (sensors self !! s_name sensor = None)
  then ({| r_name := r_name self; r_visit := r_visit self;
           sensors := <[s_name sensor := sensor]> (sensors self) |}, [])
  else (self, ["Cannot add sensor from a different raft/visit or sensor already present"]).

Record FocalPlane := {
  visit : string;
  rafts : gmap string Raft
}.

Definition FocalPlane_init (visit : string) : FocalPlane :=
  {| visit := visit; rafts := ∅ |}.

(** [FocalPlane.add_raft(self, raft)] *)
Definition add_raft (self : FocalPlane) (raft : Raft) : FocalPlane * list string :=
  if bool_decide (r_visit raft = visit self)
     && bool_decide (rafts self !! r_name raft = None)
  then ({| visit := visit self; rafts := <[r_name raft := raft]> (rafts self) |}, [])
  else (self, ["Cannot add raft from a different visit or raft already present"]).

(** [FocalPlane.add_sensor(self, sensor)]: whether the call returned or
    raised, the focal plane afterwards and what was printed. *)
Definition add_sensor (self : FocalPlane) (sensor : Sensor)
  : result unit * FocalPlane * list string :=
  let '(self, out1) :=
    match rafts self !! raft sensor with
    | None => add_raft self (Raft_init (raft sensor) (s_visit sensor))
    | Some _ => (self, [])
    end in
  match rafts self !! raft sensor with
  | None => (Raise (KeyError (raft sensor)), self, out1)
  | Some r =>
      let '(r', out2) := Raft_add_sensor r sensor in
      (Ok (), {| visit := visit self; rafts := <[raft sensor := r']> (rafts self) |},
       (out1 ++ out2)%list)
  end.

(** The [visits] argument: one value that [int()] accepts, as its text
    [str(visits)], or a collection, as the texts of its items. *)
Inductive visits_arg :=
| OneVisit (text : string)
| Visits (items : list string).

(** A compiled file name pattern with the three groups visit, raft and
    sensor. *)
Definition name_pattern := string → option (string * string * string).

Definition optional (p : string → option string) (s : string) : string :=
  default s (p s).

(** [R\d\d] or [S\d\d] *)
Definition letter_two_digits (letter : ascii) (s : string) : option (string * string) :=
  match s with
  | String l (String a (String b rest)) =>
      if Ascii.eqb l letter && Py.is_digit a && Py.is_digit b
      then Some (String l (String a (String b EmptyString)), rest) else None
  | _ => None
  end.

Definition lower_letter (s : string) : option string :=
  match s with
  | String c rest =>
      let n := N_of_ascii c in
      if ((97 <=? n) && (n <=? 122))%N then Some rest else None
  | EmptyString => None
  end.

(** [_FILENAME_PATTERN =
    r'lsst_e_(\d+)(?:_f\d+)?_(R\d\d)_(S\d\d)(?:_E\d+)?(?:_[a-z])?\.fits\.gz$'] *)
Definition _FILENAME_PATTERN : name_pattern := λ s,
  r ← Re.strip_prefix "lsst_e_" s;
  '(visit, r) ← Re.digits1 r;
  let r := optional (λ r, r ← Re.strip_prefix "_f" r; snd <$> Re.digits1 r) r in
  r ← Re.strip_prefix "_" r;
  '(raft, r) ← letter_two_digits "R" r;
  r ← Re.strip_prefix "_" r;
  '(sensor, r) ← letter_two_digits "S" r;
  let r := optional (λ r, r ← Re.strip_prefix "_E" r; snd <$> Re.digits1 r) r in
  let r := optional (λ r, r ← Re.strip_prefix "_" r; lower_letter r) r in
  r ← Re.strip_prefix ".fits.gz" r;
  if Re.at_end r then Some (visit, raft, sensor) else None.

(** The directories [os.walk(root_dir)] visits, each with its file names;
    a [root_dir] that is no directory has no entry. *)
Abbreviation Tree := (gmap string (list (string * list string))).

Record t := {
  self_default_rebinning : Q;
  focal_planes : gmap string FocalPlane;
  _valid_keys : gset string;
  printed : list string
}.

(** The validation of [visits] at the head of [_subclass_init]. *)
Definition check_visits (visits : option visits_arg) : result (option (gset string)) :=
  match visits with
  | None => Ok None
  | Some v =>
      let visits : gset string :=
        match v with
        | OneVisit text => {[ text ]}
        | Visits items => list_to_set items
        end in
      if bool_decide (visits = ∅) then Raise (ValueError "`visits` is empty")
      else if negb (forallb Py.isdigit (elements visits))
      then Raise (ValueError "`visits` not correctly set!")
      else Ok (Some visits)
  end.

(** [a in b] for strings *)
Definition str_in (a b : string) : bool :=
  match String.index 0 a b with Some _ => true | None => false end.

(** The body of the loop [for filename in filenames]. *)
Definition add_file (filename_re : name_pattern) (visits : option (gset string))
    (dirpath filename : string) (self : t) : result t :=
  match filename_re filename with
  | None => Ok self
  | Some (visit, raft, sensor) =>
      if match visits with
         | Some vs => negb (bool_decide (visit ∈ vs))
         | None => false
         end
      then Ok self
      else
        let planes :=
          match focal_planes self !! visit with
          | None => <[visit := FocalPlane_init visit]> (focal_planes self)
          | Some _ => focal_planes self
          end in
        let sensor_this := Sensor_init (path_join dirpath filename) sensor raft visit None in
        match planes !! visit with
        | None => Raise (KeyError visit)
        | Some fp =>
            match add_sensor fp sensor_this with
            | (Raise e, _, _) => Raise e
            | (Ok _, fp', out) =>
                Ok {| self_default_rebinning := self_default_rebinning self;
                      focal_planes := <[visit := fp']> planes;
                      _valid_keys :=
                        {[ visit ++ "-" ++ raft ++ "-" ++ sensor ]}
                          ∪ ({[ visit ++ "-" ++ raft ]} ∪ ({[ visit ]} ∪ _valid_keys self));
                      printed := (printed self ++ out)%list |}
            end
        end
  end.

Fixpoint add_files (filename_re : name_pattern) (visits : option (gset string))
    (dirpath : string) (filenames : list string) (self : t) : result t :=
  match filenames with
  | [] => Ok self
  | filename :: rest =>
      self ← add_file filename_re visits dirpath filename self;
      add_files filename_re visits dirpath rest self
  end.

(** The loop [for dirpath, _, filenames in os.walk(root_dir)]. *)
Fixpoint walk_loop (filename_re : name_pattern) (visits : option (gset string))
    (dirpath_contain : option string) (walk : list (string * list string)) (self : t)
  : result t :=
  match walk with
  | [] => Ok self
  | (dirpath, filenames) :: rest =>
      if match dirpath_contain with
         | Some sub => negb (String.eqb sub "") && negb (str_in sub dirpath)
         | None => false
         end
      then walk_loop filename_re visits dirpath_contain rest self
      else
        self ← add_files filename_re visits dirpath filenames self;
        walk_loop filename_re visits dirpath_contain rest self
  end.

(** [EImageReader._subclass_init(self, root_dir, visits=None,
    default_rebinning=None, dirpath_contain=None,
    filename_pattern=_FILENAME_PATTERN)] *)
Definition _subclass_init (W : Tree) (root_dir : string) (visits : option visits_arg)
    (default_rebinning : option Q) (dirpath_contain : option string)
    (filename_pattern : option name_pattern) : result t :=
  match W !! root_dir with
  | None => Raise (ValueError "`root_dir` must be a valid directory")
  | Some walk =>
      visits ← check_visits visits;
      let filename_re := default _FILENAME_PATTERN filename_pattern in
      walk_loop filename_re visits dirpath_contain walk
        {| self_default_rebinning := rebinning_or_1 default_rebinning;
           focal_planes := ∅; _valid_keys := ∅; printed := [] |}
  end.

(** Every sensor of a reader. *)
Definition all_sensors (self : t) : list Sensor :=
  fp ← (map_to_list (focal_planes self)).*2;
  r ← (map_to_list (rafts fp)).*2;
  (map_to_list (sensors r)).*2.

(** What a key of the reader stands for. *)
Inductive node :=
| FocalPlaneNode (focal_plane : FocalPlane)
| RaftNode (raft : Raft)
| SensorNode (sensor : Sensor).

(** [EImageReader.__contains__(self, item)] *)
Definition contains (self : t) (item : string) : bool :=
  bool_decide (item ∈ _valid_keys self).

(** [EImageReader.__getitem__(self, key)] *)
Definition getitem (self : t) (key : string) : result node :=
  if negb (contains self key) then Raise (KeyError "{} does not exist!")
  else
    match Py.split "-" key with
    | [] => Raise IndexError
    | k0 :: keys =>
        match focal_planes self !! k0 with
        | None => Raise (KeyError k0)
        | Some focal_plane =>
            match keys with
            | [] => Ok (FocalPlaneNode focal_plane)
            | k1 :: keys =>
                match rafts focal_plane !! k1 with
                | None => Raise (KeyError k1)
                | Some raft =>
                    match keys with
                    | [] => Ok (RaftNode raft)
                    | k2 :: _ =>
                        match sensors raft !! k2 with
                        | None => Raise (KeyError k2)
                        | Some sensor => Ok (SensorNode sensor)
                        end
                    end
                end
            end
        end
    end.

(** [EImageReader._generate_native_quantity_list(self)] *)
Definition _generate_native_quantity_list (self : t) : gset string := _valid_keys self.

End EImage.

(** * Specifications

    The predicates the theorems are stated with, and the concrete inputs of
    the examples. *)

(** The dtype and the value [_get_constant_array] takes from a schema. *)
Definition schema_dtype (schema : Schema) (name : string) : dtype :=
  default np_float64 (schema !! name ≫= se_dtype).
Definition schema_default (schema : Schema) (name : string) : scalar :=
  default np_nan (schema !! name ≫= se_default).

(** The states an accessor can be in: each cache is empty or holds what the
    storer says, and every constant array is a frozen array of one row per
    stored row, made from the value and dtype of its key. *)
Record accessor_ok (self : TableWrapper.t) : Prop := {
  ok_columns :
    ∀ c, TableWrapper._columns self = Some c → c = dom (st_frame (TableWrapper.storer self));
  ok_len :
    ∀ n, TableWrapper._len self = Some n → n = st_nrows (TableWrapper.storer self);
  ok_cache :
    ∀ df, TableWrapper._cache self = Some df → df = st_frame (TableWrapper.storer self);
  ok_constant :
    ∀ k v a, TableWrapper._constant_arrays self !! (k, v) = Some a →
      ∃ dt serial, k = dtype_str dt ∧ (serial < TableWrapper.allocated self)%nat ∧
        a = {| arr_object := ConstantFill serial; arr_dtype := dt;
               arr_data := replicate (st_nrows (TableWrapper.storer self)) v;
               arr_writeable := false |}
}.

Definition int_column (l : list Z) : column :=
  {| col_dtype := np_int64; col_values := PyInt <$> l |}.

(** The partition of the end-to-end example: a group [object_4850_00] with
    the columns [id] and [coord_ra], and a schema that declares three
    columns the group does not store. *)
Definition example_storer : Storer :=
  {| st_is_table := true; st_format_type := "table"; st_nrows := 2;
     st_frame := {[ "id" := int_column [11; 12]; "coord_ra" := int_column [0; 1] ]} |}.

Definition example_key : string := "/object_4850_00".

Definition example_store : HDFStore :=
  {| hs_path := "dc2_object_data/object_tract_4850.hdf5"; is_open := true;
     hs_groups := [(example_key, example_storer)] |}.

Definition example_schema : Schema :=
  {[ "g_base_PsfFlux_flux" := {| se_dtype := Some np_float64; se_default := Some (PyNaN 1) |};
     "g_parent" := {| se_dtype := Some np_int64; se_default := Some (PyInt (-1)) |};
     "g_base_SdssShape_flag" := {| se_dtype := Some np_bool; se_default := Some (PyBool false) |} ]}.

Definition example_accessor : TableWrapper.t :=
  {| TableWrapper.storer := example_storer; TableWrapper.is_table := true;
     TableWrapper._schema := example_schema;
     TableWrapper._columns := None; TableWrapper._len := None;
     TableWrapper._cache := None; TableWrapper._constant_arrays := ∅;
     TableWrapper.allocated := 0%nat; TableWrapper.trace := [] |}.

(** Whether the character occurs in the string. *)
Fixpoint has_char (c : ascii) (s : string) : bool :=
  match s with
  | EmptyString => false
  | String c' s' => Ascii.eqb c' c || has_char c s'
  end.






Definition example_flags (name : string) : list bool :=
  if String.eqb name "base_PixelFlags_flag_edge" then [false; true; false]
  else if String.eqb name "deblend_skipped" then [false; false; true]
  else [false; false; false].

Section focal_plane_specification.
Import EImage.

(** A raft holds its sensors under their names, and only sensors of its own
    name and visit. *)
Definition raft_ok (r : Raft) : Prop :=
  ∀ n s, sensors r !! n = Some s →
    s_name s = n ∧ raft s = r_name r ∧ s_visit s = r_visit r.

(** A focal plane holds its rafts under their names, only rafts of its own
    visit, and every raft is in order. *)
Definition focal_plane_ok (fp : FocalPlane) : Prop :=
  ∀ k r, rafts fp !! k = Some r →
    r_name r = k ∧ r_visit r = visit fp ∧ raft_ok r.


(** A tree of image files with one exposure of one sensor. *)
Definition example_tree : Tree :=
  {[ "images" := [("images/v219976", ["lsst_e_219976_f2_R22_S11_E000.fits.gz"; "README"])] ]}.

Definition example_sensor : Sensor :=
  {| path := "images/v219976/lsst_e_219976_f2_R22_S11_E000.fits.gz";
     s_name := "S11"; raft := "R22"; s_visit := "219976"; default_rebinning := 1%Q |}.

(** Every sensor of a focal plane has the default rebinning 1. *)
Definition plane_at_default (fp : FocalPlane) : Prop :=
  ∀ k r n s, rafts fp !! k = Some r → sensors r !! n = Some s → default_rebinning s = 1%Q.

Definition reader_at_default (self : t) : Prop :=
  ∀ v fp, focal_planes self !! v = Some fp → plane_at_default fp.

End focal_plane_specification.

Section catalog_specification.
Import DC2ObjectCatalog.

(** The state after some more warnings. *)
Definition add_warnings (ws : list warning) (st : state) : state :=
  {| _file_handles := _file_handles st; warnings := (warnings st ++ ws)%list |}.

(** The world in which a directory has lost one of its entries. *)
Definition remove_entry (W : World) (dir fname : string) : World :=
  {| directories := alter (filter (λ name, name ≠ fname)) dir (directories W);
     hdf5_files := hdf5_files W;
     yaml_files := yaml_files W |}.

(** The arguments the constructor works with. *)
Definition filename_re_of (kwargs : Config) : pattern :=
  default Re.FILE_PATTERN (filename_pattern kwargs).
Definition groupname_re_of (kwargs : Config) : pattern :=
  default Re.GROUP_PATTERN (groupname_pattern kwargs).
Definition schema_path_of (kwargs : Config) : string :=
  default (path_join (base_dir kwargs) SCHEMA_PATH) (schema_path kwargs).



(** A data directory with an empty schema file, a file that cannot be
    opened and the file of the example partition. *)
Definition example_world : World :=
  {| directories :=
       {[ "dc2_object_data" :=
            ["schema.yaml"; "object_tract_4851.hdf5"; "object_tract_4850.hdf5"] ]};
     hdf5_files :=
       {[ "dc2_object_data/object_tract_4850.hdf5" := [(example_key, example_storer)] ]};
     yaml_files := {[ "dc2_object_data/schema.yaml" := None ]} |}.

(** A directory without any catalog file. *)
Definition empty_world : World :=
  {| directories := {[ "dc2_object_data" := ["notes.txt"] ]};
     hdf5_files := ∅;
     yaml_files := ∅ |}.

Definition example_kwargs : Config :=
  {| base_dir := "dc2_object_data"; filename_pattern := None; groupname_pattern := None;
     schema_path := None; pixel_scale := None; use_cache := None |}.

End catalog_specification.

(** ** Predicates and inputs of the further properties *)

Global Instance event_eq_dec : EqDecision TableWrapper.event.
Proof. solve_decision. Defined.

(** The accessor after looking up the names of a list, one after the
    other. *)
Definition lookups (self : TableWrapper.t) (names : list string) : TableWrapper.t :=
  foldl (λ self name, (TableWrapper.get self name).2) self names.

(** How often the whole frame was read in a stretch of the trace. *)
Definition frame_reads (evs : list TableWrapper.event) : nat :=
  length (filter (λ e, e = TableWrapper.ReadFrame) evs).

(** A bool array with one element per row of [n] rows. *)
Definition flag_column (n : nat) (a : ndarray) : Prop :=
  ∃ c, bool_elements a = Some c ∧ length c = n.

(** The sixteen quantities the body of the loop over the bands sets. *)
Definition band_quantities (band : string) : list string :=
  [ "mag_" ++ band; "magerr_" ++ band; "psFlux_" ++ band; "psFlux_flag_" ++ band;
    "psFluxErr_" ++ band; "I_flag_" ++ band;
    "Ixx_" ++ band; "IxxPSF_" ++ band; "Iyy_" ++ band; "IyyPSF_" ++ band;
    "Ixy_" ++ band; "IxyPSF_" ++ band;
    "mag_" ++ band ++ "_cModel"; "magerr_" ++ band ++ "_cModel";
    "snr_" ++ band ++ "_cModel"; "psf_fwhm_" ++ band ].

(** The quantities [_generate_modifiers] sets before its loop over the
    bands. *)
Definition band_independent : list string :=
  [ "objectId"; "parentObjectId"; "ra"; "dec"; "x"; "y"; "xErr"; "yErr"; "xy_flag";
    "psNdata"; "extendedness"; "blendedness"; "good"; "clean"; "I_flag";
    "Ixx"; "IxxPSF"; "Iyy"; "IyyPSF"; "Ixy"; "IxyPSF" ].

(** What the body of the loop sets for one band. *)
Definition band_entries (pixel_scale : Q) (band : string) : list (string * modifier) :=
  [ ("mag_" ++ band, Native (band ++ "_mag"));
    ("magerr_" ++ band, Native (band ++ "_mag_err"));
    ("psFlux_" ++ band, Native (band ++ "_base_PsfFlux_flux"));
    ("psFlux_flag_" ++ band, Native (band ++ "_base_PsfFlux_flag"));
    ("psFluxErr_" ++ band, Native (band ++ "_base_PsfFlux_fluxSigma"));
    ("I_flag_" ++ band, Native (band ++ "_base_SdssShape_flag"));
    ("Ixx_" ++ band, Native (band ++ "_base_SdssShape_xx"));
    ("IxxPSF_" ++ band, Native (band ++ "_base_SdssShape_psf_xx"));
    ("Iyy_" ++ band, Native (band ++ "_base_SdssShape_yy"));
    ("IyyPSF_" ++ band, Native (band ++ "_base_SdssShape_psf_yy"));
    ("Ixy_" ++ band, Native (band ++ "_base_SdssShape_xy"));
    ("IxyPSF_" ++ band, Native (band ++ "_base_SdssShape_psf_xy"));
    ("mag_" ++ band ++ "_cModel", Apply cmodel_mag [band ++ "_modelfit_CModel_flux"]);
    ("magerr_" ++ band ++ "_cModel",
     Apply cmodel_magerr [band ++ "_modelfit_CModel_flux";
                          band ++ "_modelfit_CModel_fluxSigma"]);
    ("snr_" ++ band ++ "_cModel",
     Apply np_divide [band ++ "_modelfit_CModel_flux";
                      band ++ "_modelfit_CModel_fluxSigma"]);
    ("psf_fwhm_" ++ band,
     Apply (psf_fwhm pixel_scale) [band ++ "_base_SdssShape_psf_xx";
                                   band ++ "_base_SdssShape_psf_yy";
                                   band ++ "_base_SdssShape_psf_xy"]) ].

(** A band is one character. *)
Definition one_character (s : string) : Prop := String.length s = 1%nat.

Section catalog_properties_specification.
Import DC2ObjectCatalog.

(** The world in which a directory lists the given entries. *)
Definition relist (W : World) (dir : string) (names : list string) : World :=
  {| directories := <[dir := names]> (directories W);
     hdf5_files := hdf5_files W;
     yaml_files := yaml_files W |}.

(** Every handle of the table is open and is the handle of a file of the
    world under the path it is kept at. *)
Definition handles_ok (W : World) (st : state) : Prop :=
  ∀ p fh, _file_handles st !! p = Some fh →
    fh = {| hs_path := p; is_open := true;
            hs_groups := default [] (hdf5_files W !! p) |} ∧
    is_Some (hdf5_files W !! p).

(** A data directory whose one file holds a group of a layout that is
    neither a table nor fixed. *)
Definition legacy_world : World :=
  {| directories := {[ "dc2_object_data" := ["object_tract_4850.hdf5"] ]};
     hdf5_files :=
       {[ "dc2_object_data/object_tract_4850.hdf5" :=
            [(example_key,
              {| st_is_table := false; st_format_type := "legacy"; st_nrows := 2;
                 st_frame := st_frame example_storer |})] ]};
     yaml_files := ∅ |}.

(** A partition whose accessor has read nothing yet. *)
Definition untouched (d : ObjectTableWrapper.t) : Prop :=
  TableWrapper.trace (ObjectTableWrapper.table d) = [] ∧
  TableWrapper._cache (ObjectTableWrapper.table d) = None ∧
  TableWrapper._constant_arrays (ObjectTableWrapper.table d) = ∅.

(** A partition whose accessor has read no data: at most the names of its
    columns. *)
Definition no_data_read (d : ObjectTableWrapper.t) : Prop :=
  (TableWrapper.ReadFrame ∉ TableWrapper.trace (ObjectTableWrapper.table d)) ∧
  TableWrapper._cache (ObjectTableWrapper.table d) = None ∧
  TableWrapper._constant_arrays (ObjectTableWrapper.table d) = ∅.

(** Whether a partition passes the native filters. *)
Definition passes (native_filters : option (Z * string → bool)) (d : ObjectTableWrapper.t)
  : bool :=
  match native_filters with
  | None => true
  | Some check_scalar => check_scalar (ObjectTableWrapper.tract_and_patch d)
  end.

(** An accessor that keeps nothing in memory. *)
Definition holds_nothing (d : ObjectTableWrapper.t) : Prop :=
  TableWrapper._cache (ObjectTableWrapper.table d) = None ∧
  TableWrapper._constant_arrays (ObjectTableWrapper.table d) = ∅ ∧
  TableWrapper._columns (ObjectTableWrapper.table d) = None ∧
  TableWrapper._len (ObjectTableWrapper.table d) = None.

End catalog_properties_specification.

Section reader_properties_specification.
Import EImage.

(** A name without the separator of the keys. *)
Definition dash_free (s : string) : Prop := has_char "-" s = false.

(** A file name pattern whose groups hold no separator. *)
Definition groups_dash_free (re : name_pattern) : Prop :=
  ∀ f v k n, re f = Some (v, k, n) → dash_free v ∧ dash_free k ∧ dash_free n.

(** The keys ['-'.join((visit, raft))] and ['-'.join((visit, raft, sensor))]. *)
Definition raft_key (v k : string) : string := v ++ "-" ++ k.

Definition sensor_key (v k n : string) : string := v ++ "-" ++ k ++ "-" ++ n.

(** Every focal plane is stored under its visit and is in order. *)
Definition planes_ok (self : t) : Prop :=
  ∀ v fp, focal_planes self !! v = Some fp → visit fp = v ∧ focal_plane_ok fp.

(** Every focal plane, raft and sensor of the reader has its key among the
    valid keys, and its name holds no separator. *)
Definition keys_cover (self : t) : Prop :=
  ∀ v fp, focal_planes self !! v = Some fp →
    dash_free v ∧ v ∈ _valid_keys self ∧
    ∀ k r, rafts fp !! k = Some r →
      dash_free k ∧ raft_key v k ∈ _valid_keys self ∧
      ∀ n s, sensors r !! n = Some s →
        dash_free n ∧ sensor_key v k n ∈ _valid_keys self.

(** Every valid key is the key of a focal plane, a raft or a sensor of the
    reader. *)
Definition keys_resolve (self : t) : Prop :=
  ∀ key, key ∈ _valid_keys self →
    ∃ v fp, focal_planes self !! v = Some fp ∧
      (key = v ∨
       ∃ k r, rafts fp !! k = Some r ∧
         (key = raft_key v k ∨
          ∃ n s, sensors r !! n = Some s ∧ key = sensor_key v k n)).


(** The visits a [visits] argument asks for. *)
Definition asked_for (visits : option visits_arg) (v : string) : Prop :=
  match visits with
  | None => True
  | Some (OneVisit text) => v = text
  | Some (Visits items) => v ∈ items
  end.

Definition empty_reader (rebinning : Q) : t :=
  {| self_default_rebinning := rebinning; focal_planes := ∅; _valid_keys := ∅; printed := [] |}.

End reader_properties_specification.

(** * The partition accessor *)


Lemma len_spec self :
  accessor_ok self →
  (TableWrapper.len self).1 = st_nrows (TableWrapper.storer self) ∧
  accessor_ok (TableWrapper.len self).2 ∧
  TableWrapper.storer (TableWrapper.len self).2 = TableWrapper.storer self ∧
  TableWrapper._schema (TableWrapper.len self).2 = TableWrapper._schema self ∧
  TableWrapper._cache (TableWrapper.len self).2 = TableWrapper._cache self ∧
  TableWrapper._constant_arrays (TableWrapper.len self).2 = TableWrapper._constant_arrays self ∧
  TableWrapper.allocated (TableWrapper.len self).2 = TableWrapper.allocated self.
Proof.
  intros H. pose proof H as [Hc Hl Hf Hk]. unfold TableWrapper.len.
  destruct (TableWrapper._len self) as [n|] eqn:E; simpl.
  - split; [by apply Hl|]. by split_and!.
  - split; [by destruct (TableWrapper.is_table self)|].
    split_and!; try done. split; simpl; try done.
    intros n [= <-]. by destruct (TableWrapper.is_table self).
Qed.

Lemma columns_spec self :
  accessor_ok self →
  (TableWrapper.columns self).1 = dom (st_frame (TableWrapper.storer self)) ∧
  accessor_ok (TableWrapper.columns self).2.
Proof.
  intros H. pose proof H as [Hc Hl Hf Hk]. unfold TableWrapper.columns.
  assert (Hdom : ∀ s, (list_to_set (map_to_list (st_frame s)).*1 : gset string) = dom (st_frame s)).
  { intros s. apply set_eq. intros x.
    rewrite elem_of_list_to_set, elem_of_dom, list_elem_of_fmap.
    split.
    - intros [[k c] [-> Hin]]. apply elem_of_map_to_list in Hin. eauto.
    - intros [c Hin]. exists (x, c). split; [done|]. by apply elem_of_map_to_list. }
  destruct (TableWrapper._columns self) as [c|] eqn:E; simpl.
  - split; [by apply Hc|]. done.
  - unfold non_index_axes_0_1, group_axis0.
    split; [destruct (TableWrapper.is_table self); apply Hdom|].
    split; simpl; try done.
    intros c [= <-]. destruct (TableWrapper.is_table self); apply Hdom.
Qed.


Lemma generate_constant_array_object self dt v :
  accessor_ok self →
  let '(a, self') := TableWrapper._generate_constant_array self dt v in
  (TableWrapper.allocated self ≤ TableWrapper.allocated self')%nat ∧
  ∃ serial, arr_object a = ConstantFill serial ∧
    (serial < TableWrapper.allocated self')%nat ∧
    (TableWrapper._constant_arrays self !! (dtype_str dt, v) = None →
     serial = TableWrapper.allocated self) ∧
  ∃ evs, TableWrapper.trace self' = (TableWrapper.trace self ++ evs)%list ∧
    TableWrapper.ReadFrame ∉ evs.
Proof.
  intros H. unfold TableWrapper._generate_constant_array.
  destruct (TableWrapper._constant_arrays self !! (dtype_str dt, v)) as [a|] eqn:E.
  - split; [done|]. destruct (ok_constant _ H _ _ _ E) as (dt' & n & Hdt & Hn & ->).
    exists n. split_and!; try done. exists []. split; [by rewrite app_nil_r|]. apply not_elem_of_nil.
  - destruct (len_spec self H) as (Hn & Hok & Hst & Hsch & Hca & Hcs & Hal).
    unfold TableWrapper.len in *.
    destruct (TableWrapper._len self) as [n|]; simpl in *.
    + split; [lia|]. exists (TableWrapper.allocated self). split_and!; try done; [lia|].
      exists [TableWrapper.NewConstant (dtype_str dt, v)]. split; [done|].
      rewrite list_elem_of_singleton. done.
    + split; [lia|]. exists (TableWrapper.allocated self). split_and!; try done; [lia|].
      exists [TableWrapper.ReadNrows; TableWrapper.NewConstant (dtype_str dt, v)].
      split; [by rewrite <- app_assoc|].
      rewrite !elem_of_cons. intros [|[|?%elem_of_nil]]; done.
Qed.

Lemma fill_cache_ok self :
  accessor_ok self →
  accessor_ok (TableWrapper.fill_cache self) ∧
  TableWrapper._cache (TableWrapper.fill_cache self) = Some (st_frame (TableWrapper.storer self)) ∧
  TableWrapper.storer (TableWrapper.fill_cache self) = TableWrapper.storer self ∧
  TableWrapper._schema (TableWrapper.fill_cache self) = TableWrapper._schema self ∧
  TableWrapper._constant_arrays (TableWrapper.fill_cache self) = TableWrapper._constant_arrays self ∧
  TableWrapper.allocated (TableWrapper.fill_cache self) = TableWrapper.allocated self.
Proof.
  intros H. pose proof H as [Hc Hl Hf Hk]. unfold TableWrapper.fill_cache.
  destruct (TableWrapper._cache self) as [df|] eqn:E.
  - split_and!; try done. by rewrite E, (Hf df).
  - split_and!; try done. split; simpl; try done. by intros df [= <-].
Qed.

Lemma getitem_missing self name :
  accessor_ok self →
  name ∉ dom (st_frame (TableWrapper.storer self)) →
  TableWrapper.getitem self name =
  TableWrapper._generate_constant_array (TableWrapper.fill_cache self)
    (schema_dtype (TableWrapper._schema self) name)
    (schema_default (TableWrapper._schema self) name).
Proof.
  intros H Hname. destruct (fill_cache_ok self H) as (Hok & Hca & Hst & Hsch & _).
  unfold TableWrapper.getitem. rewrite Hca. simpl.
  apply not_elem_of_dom in Hname. rewrite Hname.
  unfold TableWrapper._get_constant_array. by rewrite Hsch.
Qed.

Lemma getitem_stored self name c :
  accessor_ok self →
  st_frame (TableWrapper.storer self) !! name = Some c →
  TableWrapper.getitem self name = (values name c, TableWrapper.fill_cache self).
Proof.
  intros H Hname. destruct (fill_cache_ok self H) as (Hok & Hca & Hst & Hsch & _).
  unfold TableWrapper.getitem. rewrite Hca. simpl. by rewrite Hname.
Qed.



Lemma init_ok fh key schema self :
  TableWrapper.init fh key schema = Ok self → accessor_ok self.
Proof.
  unfold TableWrapper.init. intros H.
  destruct (negb (is_open fh)); [done|].
  destruct (get_storer fh key) as [st|]; [|done].
  destruct (negb (st_is_table st) && negb (String.eqb (st_format_type st) "fixed")); [done|].
  injection H as <-. split; simpl; done.
Qed.


Lemma example_accessor_init :
  TableWrapper.init example_store example_key (Some example_schema) = Ok example_accessor.
Proof. reflexivity. Qed.

Lemma example_accessor_ok : accessor_ok example_accessor.
Proof. exact (init_ok _ _ _ _ example_accessor_init). Qed.







Lemma generate_constant_array_trace self dt v :
  let '(a, self') := TableWrapper._generate_constant_array self dt v in
  TableWrapper._cache self' = TableWrapper._cache self ∧
  ∃ evs, TableWrapper.trace self' = (TableWrapper.trace self ++ evs)%list ∧
    TableWrapper.ReadFrame ∉ evs.
Proof.
  unfold TableWrapper._generate_constant_array.
  destruct (TableWrapper._constant_arrays self !! (dtype_str dt, v)) as [a|].
  - split; [done|]. exists []. split; [by rewrite app_nil_r|]. apply not_elem_of_nil.
  - unfold TableWrapper.len. destruct (TableWrapper._len self) as [n|]; simpl.
    + split; [done|]. eexists [_]. split; [done|]. by rewrite list_elem_of_singleton.
    + split; [done|]. eexists [_; _]. split; [by rewrite <- app_assoc|].
      rewrite !elem_of_cons. intros [|[|?%elem_of_nil]]; done.
Qed.

(** C9. On an accessor whose data cache is empty, [get] of any name first
    reads the whole frame of the partition and caches it; whatever the
    constant path does comes after that read, and for a name that is not
    stored the answer is the constant path run on the filled cache. *)
Theorem first_get_reads_partition (self : TableWrapper.t) (name : string) :
  TableWrapper._cache self = None →
  ∃ a self' evs,
    TableWrapper.get self name = (a, self') ∧
    TableWrapper._cache self' = Some (read (TableWrapper.storer self)) ∧
    TableWrapper.trace self' = (TableWrapper.trace self ++ (TableWrapper.ReadFrame :: evs))%list ∧
    (TableWrapper.ReadFrame ∉ evs) ∧
    (name ∉ dom (read (TableWrapper.storer self)) →
     TableWrapper.get self name =
     TableWrapper._get_constant_array
       (TableWrapper.set_cache (Some (read (TableWrapper.storer self)))
          (TableWrapper.log TableWrapper.ReadFrame self)) name).
Proof.
  intros Hnone. unfold TableWrapper.get, TableWrapper.getitem, TableWrapper.fill_cache.
  rewrite Hnone. simpl.
  destruct (read (TableWrapper.storer self) !! name) as [c|] eqn:E.
  - eexists _, _, []. split_and!; try done.
    + apply not_elem_of_nil.
    + intros Hdom. apply not_elem_of_dom in Hdom. congruence.
  - unfold TableWrapper._get_constant_array.
    match goal with |- context [TableWrapper._generate_constant_array ?s ?d ?x] =>
      pose proof (generate_constant_array_trace s d x) as Htr;
      destruct (TableWrapper._generate_constant_array s d x) as [a self'] end.
    simpl in Htr. destruct Htr as (Hca & evs & Htr & Hevs).
    exists a, self', evs. split_and!; try done.
    by rewrite Htr, <- app_assoc.
Qed.

Lemma first_get_reads_partition_witness :
  ∃ a self' evs,
    TableWrapper.get example_accessor "g_parent" = (a, self') ∧
    TableWrapper._cache self' = Some (st_frame example_storer) ∧
    TableWrapper.trace self' = TableWrapper.ReadFrame :: evs.
Proof.
  destruct (first_get_reads_partition example_accessor "g_parent")
    as (a & self' & evs & Hget & Hca & Htr & _).
  - reflexivity.
  - by exists a, self', evs.
Defined.

Lemma split_no_sep sep s : has_char sep s = false → Py.split sep s = [s].
Proof.
  induction s as [|c s IH]; simpl; [done|].
  intros [Hc Hs]%orb_false_iff. rewrite Hc. by rewrite IH.
Qed.

Lemma split_app sep a b :
  has_char sep a = false →
  Py.split sep (a ++ String sep b) = a :: Py.split sep b.
Proof.
  induction a as [|c a IH]; simpl.
  - intros _. by rewrite Ascii.eqb_refl.
  - intros [Hc Hs]%orb_false_iff. rewrite Hc. by rewrite IH.
Qed.










(** * The flag masks *)

Lemma bool_elements_length a l : bool_elements a = Some l → length (arr_data a) = length l.
Proof.
  unfold bool_elements. destruct (arr_dtype a); try done.
  intros H. by apply length_mapM in H.
Qed.

Lemma iand_not_same out flag :
  length flag = length out →
  iand_not out flag = Some (zip_with (λ o f, o && negb f) out flag).
Proof. intros H. unfold iand_not. by rewrite decide_True. Qed.

Lemma mask_loop_spec (flags : list ndarray) (cols : list (list bool)) (out : list bool) (n : nat) :
  Forall2 (λ a c, bool_elements a = Some c ∧ length c = n) flags cols →
  length out = n →
  ∃ res, mask_loop out flags = Ok res ∧ length res = n ∧
    ∀ i, res !! i = Some true ↔
         out !! i = Some true ∧ ∀ c, c ∈ cols → c !! i = Some false.
Proof.
  intros HF. revert out. induction HF as [|a c flags cols [Ha Hc] HF IH]; intros out Hout.
  - exists out. split_and!; try done. intros i. split; [|by intros [? _]].
    intros H. split; [done|]. intros c Hin. by apply elem_of_nil in Hin.
  - simpl. rewrite Ha, iand_not_same by congruence.
    destruct (IH (zip_with (λ o f, o && negb f) out c)) as (res & Hres & Hlen & Hiff).
    { rewrite length_zip_with. lia. }
    exists res. split_and!; try done. intros i. rewrite Hiff.
    rewrite lookup_zip_with. setoid_rewrite elem_of_cons.
    destruct (out !! i) as [o|] eqn:Eo; simpl.
    + destruct (c !! i) as [f|] eqn:Ec; simpl.
      * split.
        -- intros [[= Hof] Hall]. apply andb_true_iff in Hof as [-> Hf].
           apply negb_true_iff in Hf as ->. split; [done|].
           intros c' [->|Hin]; [done|by apply Hall].
        -- intros [[= ->] Hall]. split; [|by intros c' Hin; apply Hall; right].
           specialize (Hall c (or_introl eq_refl)). rewrite Ec in Hall. by injection Hall as ->.
      * apply lookup_ge_None in Ec. apply lookup_lt_Some in Eo. lia.
    + split; [by intros [? _]|by intros [? _]].
Qed.

Lemma create_basic_flag_mask_spec (flags : list ndarray) (cols : list (list bool)) (n : nat) :
  flags ≠ [] →
  Forall2 (λ a c, bool_elements a = Some c ∧ length c = n) flags cols →
  ∃ mask, create_basic_flag_mask flags = Ok mask ∧ length mask = n ∧
    ∀ i, (i < n)%nat →
      (mask !! i = Some true ↔ ∀ c, c ∈ cols → c !! i = Some false).
Proof.
  intros Hne HF. destruct flags as [|flag0 flags]; [done|].
  unfold create_basic_flag_mask.
  assert (Hlen0 : length (arr_data flag0) = n).
  { inversion HF as [|? c ? ? [Ha Hc]]; subst. by rewrite (bool_elements_length _ _ Ha). }
  destruct (mask_loop_spec (flag0 :: flags) cols (replicate (length (arr_data flag0)) true) n HF)
    as (res & Hres & Hlen & Hiff).
  { by rewrite length_replicate. }
  exists res. split_and!; try done. intros i Hi. rewrite Hiff.
  split; [by intros [_ ?]|]. intros H. split; [|done].
  apply lookup_replicate_2. lia.
Qed.

Lemma band_modifiers_lookup ps m band key :
  key = "good" ∨ key = "clean" →
  band_modifiers ps m band !! key = m !! key.
Proof.
  intros Hkey. unfold band_modifiers, axes. simpl.
  rewrite !lookup_insert_ne; [done|..]; destruct Hkey as [-> | ->]; discriminate.
Qed.

Lemma foldl_band_modifiers_lookup ps bands m key :
  key = "good" ∨ key = "clean" →
  foldl (band_modifiers ps) m bands !! key = m !! key.
Proof.
  intros Hkey. revert m. induction bands as [|band bands IH]; intros m; [done|].
  simpl. by rewrite IH, band_modifiers_lookup.
Qed.

Lemma generate_modifiers_masks ps bands :
  _generate_modifiers ps bands !! "good" = Some (Apply flag_mask not_good_flags) ∧
  _generate_modifiers ps bands !! "clean" =
    Some (Apply flag_mask ("deblend_skipped" :: not_good_flags)).
Proof.
  unfold _generate_modifiers. rewrite !foldl_band_modifiers_lookup by auto.
  split; vm_compute; reflexivity.
Qed.

(** C2. Over flag columns that are bool arrays of one length, the
    modifiers [good] and [clean] evaluate to masks of that length: [good] is
    true at a row iff each of the seven pixel flags is false there, and
    [clean] iff [good] is true and [deblend_skipped] is false there. *)
Theorem good_clean_masks (pixel_scale : Q) (bands : list string)
    (fetch : string → ndarray) (cols : string → list bool) (n : nat) :
  (∀ name, name ∈ "deblend_skipped" :: not_good_flags →
           bool_elements (fetch name) = Some (cols name) ∧ length (cols name) = n) →
  ∃ good clean,
    (_generate_modifiers pixel_scale bands !! "good" ≫= apply_modifier fetch) = Some (Ok good) ∧
    (_generate_modifiers pixel_scale bands !! "clean" ≫= apply_modifier fetch) = Some (Ok clean) ∧
    length good = n ∧ length clean = n ∧
    ∀ i, (i < n)%nat →
      (good !! i = Some true ↔ ∀ flag, flag ∈ not_good_flags → cols flag !! i = Some false) ∧
      (clean !! i = Some true ↔
         good !! i = Some true ∧ cols "deblend_skipped" !! i = Some false).
Proof.
  intros Hcols. destruct (generate_modifiers_masks pixel_scale bands) as [-> ->]. simpl.
  assert (HF : ∀ names, (∀ x, x ∈ names → x ∈ "deblend_skipped" :: not_good_flags) →
            Forall2 (λ a c, bool_elements a = Some c ∧ length c = n)
                    (fetch <$> names) (cols <$> names)).
  { intros names Hsub. apply Forall2_fmap, Forall_Forall2_diag, Forall_forall.
    intros x Hx. by apply Hcols, Hsub. }
  destruct (create_basic_flag_mask_spec (fetch <$> not_good_flags) (cols <$> not_good_flags) n)
    as (good & Hgood & Hlg & Hg); [done| |].
  { apply HF. intros x Hx. by right. }
  destruct (create_basic_flag_mask_spec (fetch <$> "deblend_skipped" :: not_good_flags)
              (cols <$> "deblend_skipped" :: not_good_flags) n)
    as (clean & Hclean & Hlc & Hc); [done| |].
  { by apply HF. }
  exists good, clean. split_and!; try (done || by f_equal).
  intros i Hi. specialize (Hg i Hi). specialize (Hc i Hi).
  assert (Hmem : ∀ names : list string, (∀ c, c ∈ cols <$> names → c !! i = Some false) ↔
                          (∀ flag, flag ∈ names → cols flag !! i = Some false)).
  { intros names. split.
    - intros H flag Hin. apply H, list_elem_of_fmap. eauto.
    - intros H c (flag & -> & Hin)%list_elem_of_fmap. auto. }
  rewrite Hmem in Hg. rewrite Hmem in Hc. split; [done|].
  rewrite Hc, Hg. split.
  - intros H. split; [intros flag Hin; apply H; by right|apply H; by left].
  - intros [H1 H2] flag [->|Hin]%elem_of_cons; auto.
Qed.

Lemma good_clean_masks_witness :
  ∃ good clean,
    (_generate_modifiers (2 # 10) ["g"; "r"] !! "good"
       ≫= apply_modifier (λ name, bool_array (example_flags name))) = Some (Ok good) ∧
    (_generate_modifiers (2 # 10) ["g"; "r"] !! "clean"
       ≫= apply_modifier (λ name, bool_array (example_flags name))) = Some (Ok clean) ∧
    length good = 3%nat ∧ length clean = 3%nat.
Proof.
  destruct (good_clean_masks (2 # 10) ["g"; "r"]
              (λ name, bool_array (example_flags name)) example_flags 3)
    as (good & clean & Hg & Hc & Hlg & Hlc & _).
  - intros name Hname. repeat (apply elem_of_cons in Hname as [->|Hname]; [by vm_compute|]).
    by apply elem_of_nil in Hname.
  - by exists good, clean.
Defined.

(** * Partition discovery and the constructor of the catalog *)

Lemma str_le_alt a b : DC2ObjectCatalog.str_le a b ↔ a = b ∨ String_as_OT.lt a b.
Proof.
  unfold DC2ObjectCatalog.str_le, String.leb.
  destruct (String.compare a b) eqn:E.
  - apply String_as_OT.cmp_eq in E. split; [by left|done].
  - apply String_as_OT.cmp_lt in E. split; [by right|done].
  - split; [done|]. intros [->|H].
    + assert (String_as_OT.cmp b b = Eq) as Hrefl by by apply String_as_OT.cmp_eq.
      unfold String_as_OT.cmp in Hrefl. congruence.
    + apply String_as_OT.cmp_lt in H. unfold String_as_OT.cmp in H. congruence.
Qed.

Global Instance str_le_trans : Transitive DC2ObjectCatalog.str_le.
Proof.
  intros a b c. rewrite !str_le_alt. intros [->|H1] [->|H2]; auto.
  right. by eapply String_as_OT.lt_trans.
Qed.

Global Instance str_le_antisym : AntiSymm (=) DC2ObjectCatalog.str_le.
Proof. intros a b. apply String.leb_antisym. Qed.

Global Instance str_le_total : Total DC2ObjectCatalog.str_le.
Proof. intros a b. apply String.leb_total. Qed.

Lemma StronglySorted_filter_str (P : string → Prop) `{∀ x, Decision (P x)} (l : list string) :
  StronglySorted DC2ObjectCatalog.str_le l →
  StronglySorted DC2ObjectCatalog.str_le (filter P l).
Proof.
  induction 1 as [|x l Hl IH Hx]; [constructor|].
  rewrite filter_cons. case_decide; [|done].
  constructor; [done|]. apply Forall_forall. intros y [_ Hy]%list_elem_of_filter.
  rewrite Forall_forall in Hx. by apply Hx.
Qed.

Lemma sorted_filter (P : string → Prop) `{∀ x, Decision (P x)} (names : list string) :
  DC2ObjectCatalog.sorted (filter P names) = filter P (DC2ObjectCatalog.sorted names).
Proof.
  unfold DC2ObjectCatalog.sorted. apply (StronglySorted_unique DC2ObjectCatalog.str_le).
  - apply StronglySorted_merge_sort; apply _.
  - apply StronglySorted_filter_str, StronglySorted_merge_sort; apply _.
  - rewrite !merge_sort_Permutation. done.
Qed.

Section catalog.
Import DC2ObjectCatalog.

Lemma add_warnings_nil st : add_warnings [] st = st.
Proof. destruct st. unfold add_warnings. simpl. by rewrite app_nil_r. Qed.

Lemma add_warnings_app ws1 ws2 st :
  add_warnings ws2 (add_warnings ws1 st) = add_warnings (ws1 ++ ws2)%list st.
Proof. unfold add_warnings. simpl. by rewrite app_assoc. Qed.

Lemma scan_groups_frame gre schema fh path keys ds :
  ∃ r ws, ∀ st, scan_groups gre schema fh path keys ds st = (r, add_warnings ws st).
Proof.
  revert ds. induction keys as [|key keys IH]; intros ds; simpl.
  - exists (Ok ds), []. intros st. by rewrite add_warnings_nil.
  - destruct (gre (Py.lstrip "/" key)).
    + destruct (ObjectTableWrapper.init fh key schema) as [d|e].
      * destruct (IH (ds ++ [d])%list) as (r & ws & H). exists r, ws. intros st. apply H.
      * exists (Raise e), []. intros st. by rewrite add_warnings_nil.
    + destruct (IH ds) as (r & ws & H). exists r, (IncorrectGroupName (basename path) key :: ws).
      intros st. unfold mbind, M_bind, warn. simpl.
      rewrite H. unfold add_warnings. simpl. by rewrite <- app_assoc.
Qed.

Lemma open_hdf5_spec W p st :
  (∃ fh, _open_hdf5 W p st = (Ok fh, st) ∧ is_Some (_file_handles st !! p)) ∨
  (∃ groups, hdf5_files W !! p = Some groups ∧
     _open_hdf5 W p st =
       (Ok {| hs_path := p; is_open := true; hs_groups := groups |},
        {| _file_handles := <[p := {| hs_path := p; is_open := true; hs_groups := groups |}]>
                              (_file_handles st);
           warnings := warnings st |})) ∨
  (hdf5_files W !! p = None ∧ _open_hdf5 W p st = (Raise (IOError p), st) ∧
   ∀ st', _file_handles st' = _file_handles st → _open_hdf5 W p st' = (Raise (IOError p), st')).
Proof.
  unfold _open_hdf5, HDFStore_open.
  destruct (_file_handles st !! p) as [fh|] eqn:E.
  - destruct (is_open fh) eqn:Eo; [left; eauto|].
    destruct (hdf5_files W !! p) as [groups|] eqn:Eh.
    + right; left. eauto.
    + right; right. split_and!; try done. intros st' ->. by rewrite E, Eo.
  - destruct (hdf5_files W !! p) as [groups|] eqn:Eh.
    + right; left. eauto.
    + right; right. split_and!; try done. intros st' ->. by rewrite E.
Qed.

Lemma open_hdf5_handles W p st1 st2 :
  _file_handles st1 = _file_handles st2 →
  (_open_hdf5 W p st1).1 = (_open_hdf5 W p st2).1 ∧
  _file_handles (_open_hdf5 W p st1).2 = _file_handles (_open_hdf5 W p st2).2.
Proof.
  intros H. unfold _open_hdf5. rewrite H.
  destruct (match _file_handles st2 !! p with
            | Some fh => if is_open fh then Some fh else None
            | None => None
            end); [done|].
  by destruct (HDFStore_open W p).
Qed.

Lemma open_hdf5_unreadable W p q st :
  hdf5_files W !! p = None →
  _file_handles st !! p = None →
  _file_handles (_open_hdf5 W q st).2 !! p = None.
Proof.
  intros Hp Hst. unfold _open_hdf5, HDFStore_open.
  destruct (match _file_handles st !! q with
            | Some fh => if is_open fh then Some fh else None
            | None => None
            end); [done|].
  destruct (hdf5_files W !! q) as [groups|] eqn:E; simpl; [|done].
  rewrite lookup_insert_ne; [done|]. intros ->. congruence.
Qed.

Section discovery.
Context (W : World) (base_dir : string) (filename_re groupname_re : pattern)
        (schema : option Schema).

Local Abbreviation scan := (scan_files W base_dir filename_re groupname_re schema).

Lemma scan_files_mono l ds st w :
  w ∈ warnings st → w ∈ warnings (scan l ds st).2.
Proof.
  revert ds st. induction l as [|fname l IH]; intros ds st Hw; simpl; [done|].
  destruct (filename_re fname); simpl; [|by apply IH].
  destruct (open_hdf5_spec W (path_join base_dir fname) st)
    as [(fh & -> & _)|[(groups & _ & ->)|(_ & -> & _)]].
  - unfold mbind, M_bind.
    destruct (scan_groups_frame groupname_re schema fh (path_join base_dir fname)
                (hs_groups fh).*1 ds) as (r & ws & ->).
    destruct r; [|by apply elem_of_app; left]. apply IH. by apply elem_of_app; left.
  - unfold mbind, M_bind.
    match goal with |- context [scan_groups _ _ ?fh ?p ?ks ds] =>
      destruct (scan_groups_frame groupname_re schema fh p ks ds) as (r & ws & ->) end.
    destruct r; [|by apply elem_of_app; left]. apply IH. by apply elem_of_app; left.
  - unfold mbind, M_bind, warn. apply IH. by apply elem_of_app; left.
Qed.

Context (fname : string).
Let file_path := path_join base_dir fname.
Hypothesis Hmatch : filename_re fname = true.
Hypothesis Hunreadable : hdf5_files W !! file_path = None.

Lemma scan_files_skip l ds st1 st2 :
  _file_handles st1 = _file_handles st2 →
  _file_handles st1 !! file_path = None →
  (scan l ds st1).1 = (scan (filter (λ name, name ≠ fname) l) ds st2).1 ∧
  _file_handles (scan l ds st1).2 =
  _file_handles (scan (filter (λ name, name ≠ fname) l) ds st2).2.
Proof.
  revert ds st1 st2. induction l as [|g l IH]; intros ds st1 st2 Hh Hp; [done|].
  rewrite filter_cons. case_decide as Hg.
  - (* another entry: both scans treat it alike *)
    simpl. destruct (filename_re g); simpl; [|by apply IH].
    pose proof (open_hdf5_handles W (path_join base_dir g) st1 st2 Hh) as [Hr Hh'].
    pose proof (open_hdf5_unreadable W file_path (path_join base_dir g) st1 Hunreadable Hp) as Hp'.
    destruct (_open_hdf5 W (path_join base_dir g) st1) as [r1 st1'].
    destruct (_open_hdf5 W (path_join base_dir g) st2) as [r2 st2'].
    simpl in *. subst r2. destruct r1 as [fh|e].
    + unfold mbind, M_bind.
      destruct (scan_groups_frame groupname_re schema fh (path_join base_dir g)
                  (hs_groups fh).*1 ds) as (r & ws & Hscan).
      rewrite !Hscan. destruct r; [|done]. by apply IH.
    + destruct e; try done. unfold mbind, M_bind, warn. by apply IH.
  - (* the unreadable entry itself *)
    subst g. simpl. rewrite Hmatch. simpl.
    destruct (open_hdf5_spec W file_path st1)
      as [(fh & _ & [x Hx])|[(groups & Hsome & _)|(_ & Hopen & _)]]; [congruence|congruence|].
    fold file_path. rewrite Hopen. unfold mbind, M_bind, warn. by apply IH.
Qed.

Lemma scan_files_warns l ds st :
  fname ∈ l →
  _file_handles st !! file_path = None →
  is_Some (match (scan l ds st).1 with Ok x => Some x | Raise _ => None end) →
  CannotAccess file_path ∈ warnings (scan l ds st).2.
Proof.
  revert ds st. induction l as [|g l IH]; intros ds st Hin Hp; [by apply elem_of_nil in Hin|].
  destruct (decide (g = fname)) as [->|Hg].
  - intros _. simpl. rewrite Hmatch. simpl.
    destruct (open_hdf5_spec W file_path st)
      as [(fh & _ & [x Hx])|[(groups & Hsome & _)|(_ & Hopen & _)]]; [congruence|congruence|].
    fold file_path. rewrite Hopen. unfold mbind, M_bind, warn.
    apply scan_files_mono. simpl. apply elem_of_app. right. by apply list_elem_of_singleton.
  - apply elem_of_cons in Hin as [?|Hin]; [congruence|].
    simpl. destruct (filename_re g); simpl; [|by apply IH].
    pose proof (open_hdf5_unreadable W file_path (path_join base_dir g) st Hunreadable Hp) as Hp'.
    destruct (_open_hdf5 W (path_join base_dir g) st) as [r st'].
    simpl in *. destruct r as [fh|e].
    + unfold mbind, M_bind.
      destruct (scan_groups_frame groupname_re schema fh (path_join base_dir g)
                  (hs_groups fh).*1 ds) as (r & ws & Hscan).
      rewrite !Hscan. destruct r; [|by intros [? ?]]. by apply IH.
    + destruct e; try by intros [? ?]. unfold mbind, M_bind, warn. by apply IH.
Qed.

End discovery.

Lemma scan_files_world W W' bd fre gre schema l ds st :
  hdf5_files W' = hdf5_files W →
  scan_files W' bd fre gre schema l ds st = scan_files W bd fre gre schema l ds st.
Proof.
  intros HW. revert ds st. induction l as [|g l IH]; intros ds st; [done|].
  simpl. destruct (fre g); simpl; [|by apply IH].
  assert (_open_hdf5 W' (path_join bd g) st = _open_hdf5 W (path_join bd g) st) as ->.
  { unfold _open_hdf5, HDFStore_open. by rewrite HW. }
  destruct (_open_hdf5 W (path_join bd g) st) as [[fh|e] st'].
  - unfold mbind, M_bind. destruct (scan_groups gre schema fh (path_join bd g) (hs_groups fh).*1 ds st')
      as [[ds'|e] st'']; [apply IH|done].
  - destruct e; try done. unfold mbind, M_bind, warn. apply IH.
Qed.

(** C7. A matching file of the directory that cannot be opened is skipped
    with a warning: discovery returns what it returns for the directory
    without that file, with the same file handles, and where it returns a
    list it has warned about the file. *)
Theorem unreadable_file_skipped (W : World) (base_dir : string)
    (filename_re groupname_re : pattern) (schema : option Schema)
    (names : list string) (fname : string) (st : state) :
  directories W !! base_dir = Some names →
  fname ∈ names →
  filename_re fname = true →
  hdf5_files W !! path_join base_dir fname = None →
  _file_handles st !! path_join base_dir fname = None →
  let run := _generate_datasets W base_dir filename_re groupname_re schema st in
  let run' := _generate_datasets (remove_entry W base_dir fname) base_dir
                filename_re groupname_re schema st in
  run.1 = run'.1 ∧
  _file_handles run.2 = _file_handles run'.2 ∧
  (∀ datasets, run.1 = Ok datasets →
     CannotAccess (path_join base_dir fname) ∈ warnings run.2).
Proof.
  intros Hdir Hin Hmatch Hun Hst run run'. subst run run'.
  assert (Hdir' : directories (remove_entry W base_dir fname) !! base_dir =
                  Some (filter (λ name, name ≠ fname) names)).
  { simpl. by rewrite lookup_alter_eq, Hdir. }
  unfold _generate_datasets, listdir. rewrite Hdir, Hdir'.
  unfold mbind, M_bind, lift. simpl.
  rewrite (scan_files_world W (remove_entry W base_dir fname)) by done.
  rewrite sorted_filter.
  pose proof (scan_files_skip W base_dir filename_re groupname_re schema fname Hmatch Hun
                (sorted names) [] st st eq_refl Hst) as [H1 H2].
  split_and!; try done.
  intros datasets Hok.
  apply (scan_files_warns W base_dir filename_re groupname_re schema fname Hmatch Hun); try done.
  - unfold sorted. rewrite merge_sort_Permutation. done.
  - rewrite Hok. eauto.
Qed.

Lemma scan_files_no_match W bd fre gre schema l ds st :
  (∀ name, name ∈ l → fre name = false) →
  scan_files W bd fre gre schema l ds st = (Ok ds, st).
Proof.
  revert st. induction l as [|g l IH]; intros st H; [done|].
  simpl. rewrite (H g) by by left. simpl. apply IH. intros name Hin. apply H. by right.
Qed.

Lemma load_schema_returns W path st :
  ∃ schema ws, load_schema W path st = (Ok schema, add_warnings ws st) ∧
    (yaml_files W !! path = Some None → path ≠ "" →
     schema = None ∧ ws = [NoSchemaFound path]).
Proof.
  unfold load_schema, _generate_schema_from_yaml.
  destruct (String.eqb_spec path "") as [->|Hne]; simpl.
  - exists None, []. rewrite add_warnings_nil. split; [done|]. by intros _ [].
  - case_bool_decide as Hex.
    + destruct Hex as [doc Hdoc]. rewrite Hdoc. destruct doc as [s|].
      * exists (Some s), []. rewrite add_warnings_nil. split; [done|]. by intros [=].
      * exists None, [NoSchemaFound path]. done.
    + exists None, []. rewrite add_warnings_nil. split; [done|].
      intros Hsome. destruct Hex. by rewrite Hsome.
Qed.

(** C4. When discovery, run as the constructor runs it, returns no
    accessor, the constructor raises and no catalog exists; in particular
    for a directory none of whose entries matches the file name pattern. *)
Theorem no_partitions_no_catalog (W : World) (kwargs : Config) :
  (∀ schema st st',
     load_schema W (schema_path_of kwargs) initial = (Ok schema, st) →
     _generate_datasets W (base_dir kwargs) (filename_re_of kwargs) (groupname_re_of kwargs)
       schema st = (Ok [], st') →
     construct W kwargs =
       (Raise (RuntimeError "No catalogs were found in `base_dir`"), st')) ∧
  (∀ names,
     directories W !! base_dir kwargs = Some names →
     (∀ name, name ∈ names → filename_re_of kwargs name = false) →
     ∃ st, construct W kwargs =
             (Raise (RuntimeError "No catalogs were found in `base_dir`"), st)).
Proof.
  assert (Hfirst : ∀ schema st st',
     load_schema W (schema_path_of kwargs) initial = (Ok schema, st) →
     _generate_datasets W (base_dir kwargs) (filename_re_of kwargs) (groupname_re_of kwargs)
       schema st = (Ok [], st') →
     construct W kwargs =
       (Raise (RuntimeError "No catalogs were found in `base_dir`"), st')).
  { intros schema st st' Hload Hscan. unfold construct, _subclass_init.
    fold (filename_re_of kwargs) (groupname_re_of kwargs) (schema_path_of kwargs).
    assert (Hdir : is_Some (directories W !! base_dir kwargs)).
    { unfold _generate_datasets, listdir in Hscan.
      destruct (directories W !! base_dir kwargs); [eauto|done]. }
    rewrite (bool_decide_eq_true_2 _ Hdir). simpl.
    unfold mbind at 1, M_bind at 1. rewrite Hload.
    unfold mbind at 1, M_bind at 1. by rewrite Hscan. }
  split; [done|].
  intros names Hdir Hnone.
  destruct (load_schema_returns W (schema_path_of kwargs) initial) as (schema & ws & Hload & _).
  eexists. eapply Hfirst; [done|].
  unfold _generate_datasets, listdir. rewrite Hdir. unfold mbind, M_bind, lift. simpl.
  apply scan_files_no_match. intros name Hin. apply Hnone.
  unfold sorted in Hin. by rewrite merge_sort_Permutation in Hin.
Qed.







Lemma unreadable_file_skipped_witness :
  let run := _generate_datasets example_world "dc2_object_data"
               Re.FILE_PATTERN Re.GROUP_PATTERN None initial in
  let run' := _generate_datasets
                (remove_entry example_world "dc2_object_data" "object_tract_4851.hdf5")
                "dc2_object_data" Re.FILE_PATTERN Re.GROUP_PATTERN None initial in
  run.1 = run'.1 ∧
  CannotAccess "dc2_object_data/object_tract_4851.hdf5" ∈ warnings run.2.
Proof.
  destruct (unreadable_file_skipped example_world "dc2_object_data"
              Re.FILE_PATTERN Re.GROUP_PATTERN None
              ["schema.yaml"; "object_tract_4851.hdf5"; "object_tract_4850.hdf5"]
              "object_tract_4851.hdf5" initial) as (H1 & _ & H2).
  - reflexivity.
  - apply elem_of_cons. right. apply elem_of_cons. by left.
  - reflexivity.
  - reflexivity.
  - reflexivity.
  - split; [exact H1|]. eapply H2. vm_compute. reflexivity.
Defined.

Lemma no_partitions_no_catalog_witness :
  construct empty_world example_kwargs =
    (Raise (RuntimeError "No catalogs were found in `base_dir`"), initial) ∧
  ∃ st, construct empty_world example_kwargs =
          (Raise (RuntimeError "No catalogs were found in `base_dir`"), st).
Proof.
  destruct (no_partitions_no_catalog empty_world example_kwargs) as [H1 H2]. split.
  - apply (H1 None initial initial); reflexivity.
  - apply (H2 ["notes.txt"]); [reflexivity|].
    intros name Hin. apply list_elem_of_singleton in Hin as ->. reflexivity.
Defined.



End catalog.

(** * The focal-plane tree *)

Section focal_plane.
Import EImage.


Lemma Raft_add_sensor_ok r s : raft_ok r → raft_ok (Raft_add_sensor r s).1.
Proof.
  intros Hr. unfold Raft_add_sensor.
  destruct (bool_decide (raft s = r_name r)) eqn:E1; [|done].
  destruct (bool_decide (s_visit s = r_visit r)) eqn:E2; [|done].
  destruct (bool_decide (sensors r !! s_name s = None)) eqn:E3; [|done].
  simpl. apply bool_decide_eq_true in E1, E2.
  intros n s'. simpl. rewrite lookup_insert. case_decide as Hn.
  - by intros [= <-].
  - apply Hr.
Qed.

Lemma Raft_add_sensor_name r s :
  r_name (Raft_add_sensor r s).1 = r_name r ∧ r_visit (Raft_add_sensor r s).1 = r_visit r.
Proof.
  unfold Raft_add_sensor.
  by destruct (bool_decide _ && bool_decide _ && bool_decide _).
Qed.

Lemma add_raft_ok fp r :
  focal_plane_ok fp → raft_ok r →
  focal_plane_ok (add_raft fp r).1 ∧ visit (add_raft fp r).1 = visit fp.
Proof.
  intros Hfp Hr. unfold add_raft.
  destruct (bool_decide (r_visit r = visit fp)) eqn:E1; [|done].
  destruct (bool_decide (rafts fp !! r_name r = None)) eqn:E2; [|done].
  simpl. split; [|done]. apply bool_decide_eq_true in E1.
  intros k r'. simpl. rewrite lookup_insert. case_decide as Hk.
  - by intros [= <-].
  - apply Hfp.
Qed.

Lemma add_sensor_ok fp s :
  focal_plane_ok fp →
  focal_plane_ok (add_sensor fp s).1.2 ∧ visit (add_sensor fp s).1.2 = visit fp.
Proof.
  intros Hfp. unfold add_sensor.
  set (fp1 := match rafts fp !! raft s with
              | None => add_raft fp (Raft_init (raft s) (s_visit s))
              | Some _ => (fp, [])
              end).
  assert (H1 : focal_plane_ok fp1.1 ∧ visit fp1.1 = visit fp).
  { unfold fp1. destruct (rafts fp !! raft s); [done|].
    apply add_raft_ok; [done|]. intros n s'. simpl. by rewrite lookup_empty. }
  destruct fp1 as [fp' out1]. simpl in H1. destruct H1 as [Hfp' Hv].
  destruct (rafts fp' !! raft s) as [r|] eqn:E; [|done].
  destruct (Hfp' _ _ E) as (Hn & Hrv & Hr).
  pose proof (Raft_add_sensor_ok r s Hr) as Hr'.
  destruct (Raft_add_sensor_name r s) as [Hn' Hv'].
  destruct (Raft_add_sensor r s) as [r' out2]. simpl in *.
  split; [|done]. intros k r''. simpl. rewrite lookup_insert. case_decide as Hk.
  - intros [= <-]. split_and!; [congruence|simpl; congruence|done].
  - apply Hfp'.
Qed.




(** C6, on a reader given [default_rebinning = 2]: the reader keeps the
    value, but the sensor it discovers has the default rebinning 1, so
    [get_data()] returns the image at full resolution; only an explicit
    argument rescales. *)
Lemma reader_drops_default_rebinning :
  ∃ reader,
    _subclass_init example_tree "images" None (Some (2 # 1)%Q) None None = Ok reader ∧
    self_default_rebinning reader = (2 # 1)%Q ∧
    all_sensors reader = [example_sensor] ∧
    default_rebinning example_sensor = 1%Q ∧
    get_data example_sensor None = Ok (FitsFile_data (path example_sensor)) ∧
    get_data example_sensor (Some (2 # 1)%Q) =
      Ok (rescale (FitsFile_data (path example_sensor)) (1 # 2)%Q).
Proof. eexists. split_and!; [vm_compute; reflexivity|reflexivity..]. Qed.

Lemma Sensor_init_default path name raft visit :
  default_rebinning (Sensor_init path name raft visit None) = 1%Q.
Proof. reflexivity. Qed.

Lemma add_sensor_unknown_raft_other_visit :
  add_sensor (FocalPlane_init "1") (Sensor_init "f.fits.gz" "S11" "R22" "2" None) =
    (Raise (KeyError "R22"), FocalPlane_init "1",
     ["Cannot add raft from a different visit or raft already present"]).
Proof. reflexivity. Qed.


Lemma add_sensor_at_default fp s :
  plane_at_default fp → default_rebinning s = 1%Q →
  plane_at_default (add_sensor fp s).1.2.
Proof.
  intros Hfp Hs. unfold add_sensor.
  set (fp1 := match rafts fp !! raft s with
              | None => add_raft fp (Raft_init (raft s) (s_visit s))
              | Some _ => (fp, [])
              end).
  assert (H1 : plane_at_default fp1.1).
  { unfold fp1. destruct (rafts fp !! raft s); [done|]. unfold add_raft.
    destruct (bool_decide _ && bool_decide _); [|done]. simpl.
    intros k r n s'. simpl. rewrite lookup_insert. case_decide; [|by apply Hfp].
    intros [= <-]. simpl. by rewrite lookup_empty. }
  destruct fp1 as [fp' out1]. simpl in H1.
  destruct (rafts fp' !! raft s) as [r|] eqn:E; [|done].
  unfold Raft_add_sensor.
  destruct (bool_decide _ && bool_decide _ && bool_decide _); simpl.
  - intros k r' n s'. simpl. rewrite lookup_insert. case_decide; [|by apply H1].
    intros [= <-]. simpl. rewrite lookup_insert. case_decide; [by intros [= <-]|].
    by apply (H1 _ _ _ _ E).
  - intros k r' n s'. simpl. rewrite insert_id by done. by apply H1.
Qed.

Lemma add_file_at_default re visits dirpath filename self self' :
  reader_at_default self →
  add_file re visits dirpath filename self = Ok self' →
  reader_at_default self'.
Proof.
  intros Hself. unfold add_file.
  destruct (re filename) as [[[v rf] sn]|]; [|by intros [= <-]].
  destruct (match visits with Some vs => negb (bool_decide (v ∈ vs)) | None => false end);
    [by intros [= <-]|].
  set (planes := match focal_planes self !! v with
                 | None => <[v:=FocalPlane_init v]> (focal_planes self)
                 | Some _ => focal_planes self
                 end).
  assert (Hplanes : ∀ v' fp, planes !! v' = Some fp → plane_at_default fp).
  { unfold planes. destruct (focal_planes self !! v); [done|].
    intros v' fp. rewrite lookup_insert. case_decide; [|by apply Hself].
    intros [= <-] k r n s. simpl. by rewrite lookup_empty. }
  destruct (planes !! v) as [fp|] eqn:E; [|done].
  pose proof (add_sensor_at_default fp (Sensor_init (path_join dirpath filename) sn rf v None)
                (Hplanes _ _ E) eq_refl) as Hfp'.
  destruct (add_sensor fp _) as [[[u|e] fp'] out]; [|done].
  intros [= <-]. intros v' fp''. simpl. rewrite lookup_insert.
  case_decide; [by intros [= <-]|by apply Hplanes].
Qed.

Lemma add_files_at_default re visits dirpath filenames self self' :
  reader_at_default self →
  add_files re visits dirpath filenames self = Ok self' →
  reader_at_default self'.
Proof.
  revert self. induction filenames as [|f l IH]; intros self Hself; simpl.
  - by intros [= <-].
  - destruct (add_file re visits dirpath f self) as [self1|e] eqn:E; simpl; [|done].
    apply IH. by eapply add_file_at_default.
Qed.

Lemma walk_loop_at_default re visits contain walk self self' :
  reader_at_default self →
  walk_loop re visits contain walk self = Ok self' →
  reader_at_default self'.
Proof.
  revert self. induction walk as [|[dirpath filenames] walk IH]; intros self Hself; simpl.
  - by intros [= <-].
  - destruct (match contain with
              | Some sub => negb (String.eqb sub "") && negb (str_in sub dirpath)
              | None => false
              end); [by apply IH|].
    destruct (add_files re visits dirpath filenames self) as [self1|e] eqn:E; simpl; [|done].
    apply IH. by eapply add_files_at_default.
Qed.

Lemma discovered_sensors_at_default W root_dir visits rebinning contain re reader :
  _subclass_init W root_dir visits rebinning contain re = Ok reader →
  ∀ v fp k r n s,
    focal_planes reader !! v = Some fp → rafts fp !! k = Some r → sensors r !! n = Some s →
    default_rebinning s = 1%Q ∧ get_data s None = Ok (FitsFile_data (path s)).
Proof.
  unfold _subclass_init. destruct (W !! root_dir) as [walk|]; [|done].
  destruct (check_visits visits) as [vs|e]; simpl; [|done].
  intros Hwalk v fp k r n s Hfp Hr Hs.
  assert (Hd : default_rebinning s = 1%Q).
  { eapply (walk_loop_at_default _ _ _ _ _ _ _ Hwalk); eauto. }
  split; [done|]. unfold get_data. simpl. by rewrite Hd.
  Unshelve. intros v' fp'. simpl. by rewrite lookup_empty.
Qed.

End focal_plane.

(** * Further properties of the partition accessor *)

(** X1. A stored column is returned as stored, whatever the schema says. *)
Theorem get_stored_column (self : TableWrapper.t) (name : string) (c : column) :
  accessor_ok self →
  st_frame (TableWrapper.storer self) !! name = Some c →
  ∃ a self',
    TableWrapper.get self name = (a, self') ∧
    arr_object a = StoredColumn name ∧
    arr_data a = col_values c ∧
    arr_dtype a = col_dtype c ∧
    TableWrapper._constant_arrays self' = TableWrapper._constant_arrays self ∧
    accessor_ok self'.
Proof.
  intros H Hc. unfold TableWrapper.get. rewrite (getitem_stored _ _ c) by done.
  destruct (fill_cache_ok self H) as (Hok & _ & _ & _ & Hcs & _).
  eexists _, _. by split_and!.
Qed.

Lemma get_stored_column_witness :
  ∃ a self',
    TableWrapper.get example_accessor "id" = (a, self') ∧
    arr_data a = [PyInt 11; PyInt 12] ∧ arr_dtype a = np_int64.
Proof.
  destruct (get_stored_column example_accessor "id" (int_column [11; 12]) example_accessor_ok)
    as (a & self' & Hget & _ & Hd & Hdt & _); [reflexivity|].
  by exists a, self'.
Defined.

Lemma frame_reads_none evs : TableWrapper.ReadFrame ∉ evs → frame_reads evs = 0%nat.
Proof.
  unfold frame_reads. induction evs as [|e evs IH]; [done|].
  intros H. apply not_elem_of_cons in H as [He Hevs].
  rewrite filter_cons_False by congruence. by apply IH.
Qed.

Lemma get_constant_array_trace self name :
  TableWrapper._cache (TableWrapper._get_constant_array self name).2 = TableWrapper._cache self ∧
  ∃ evs,
    TableWrapper.trace (TableWrapper._get_constant_array self name).2 =
      (TableWrapper.trace self ++ evs)%list ∧
    TableWrapper.ReadFrame ∉ evs.
Proof.
  unfold TableWrapper._get_constant_array.
  match goal with |- context [TableWrapper._generate_constant_array ?s ?d ?x] =>
    pose proof (generate_constant_array_trace s d x) as Htr;
    destruct (TableWrapper._generate_constant_array s d x) as [a self'] end.
  done.
Qed.

Lemma getitem_trace self name :
  ∃ evs,
    TableWrapper.trace (TableWrapper.getitem self name).2 = (TableWrapper.trace self ++ evs)%list ∧
    frame_reads evs = match TableWrapper._cache self with Some _ => 0%nat | None => 1%nat end ∧
    is_Some (TableWrapper._cache (TableWrapper.getitem self name).2).
Proof.
  unfold TableWrapper.getitem.
  assert (Hfill : ∃ evs0,
    TableWrapper.trace (TableWrapper.fill_cache self) = (TableWrapper.trace self ++ evs0)%list ∧
    frame_reads evs0 = match TableWrapper._cache self with Some _ => 0%nat | None => 1%nat end ∧
    is_Some (TableWrapper._cache (TableWrapper.fill_cache self))).
  { unfold TableWrapper.fill_cache. destruct (TableWrapper._cache self) as [df|] eqn:E.
    - exists []. rewrite app_nil_r, E. eauto.
    - exists [TableWrapper.ReadFrame]. simpl. eauto. }
  destruct Hfill as (evs0 & Ht0 & Hr0 & Hc0).
  destruct (default ∅ (TableWrapper._cache (TableWrapper.fill_cache self)) !! name).
  - exists evs0. by split_and!.
  - destruct (get_constant_array_trace (TableWrapper.fill_cache self) name)
      as (Hca & evs & Ht & Hevs).
    exists (evs0 ++ evs)%list. split_and!.
    + by rewrite Ht, Ht0, <- app_assoc.
    + unfold frame_reads in *. rewrite filter_app, length_app, Hr0.
      fold (frame_reads evs). rewrite frame_reads_none by done. lia.
    + by rewrite Hca.
Qed.

Lemma lookups_trace self names :
  ∃ evs,
    TableWrapper.trace (lookups self names) = (TableWrapper.trace self ++ evs)%list ∧
    frame_reads evs =
      match names, TableWrapper._cache self with
      | _ :: _, None => 1%nat
      | _, _ => 0%nat
      end.
Proof.
  revert self. induction names as [|name names IH]; intros self; simpl.
  - exists []. rewrite app_nil_r. split; [done|]. by destruct (TableWrapper._cache self).
  - destruct (getitem_trace self name) as (evs1 & Ht1 & Hr1 & [df Hdf]).
    destruct (IH (TableWrapper.get self name).2) as (evs2 & Ht2 & Hr2).
    unfold TableWrapper.get in *. rewrite Hdf in Hr2.
    exists (evs1 ++ evs2)%list. split.
    + by rewrite Ht2, Ht1, <- app_assoc.
    + unfold frame_reads in *. rewrite filter_app, length_app, Hr1, Hr2.
      destruct names; destruct (TableWrapper._cache self); simpl; lia.
Qed.

Lemma lookups_cache self names :
  names ≠ [] ∨ is_Some (TableWrapper._cache self) →
  is_Some (TableWrapper._cache (lookups self names)).
Proof.
  revert self. induction names as [|name names IH]; intros self H; simpl.
  - by destruct H.
  - apply IH. right. destruct (getitem_trace self name) as (_ & _ & _ & Hc). exact Hc.
Qed.

(** X2. Any lookups on an accessor with an empty cache read the frame once,
    and lookups after them read it no more. *)
Theorem partition_read_once (self : TableWrapper.t) (names more : list string) :
  TableWrapper._cache self = None →
  names ≠ [] →
  ∃ evs evs',
    TableWrapper.trace (lookups self names) = (TableWrapper.trace self ++ evs)%list ∧
    frame_reads evs = 1%nat ∧
    TableWrapper.trace (lookups (lookups self names) more) =
      (TableWrapper.trace (lookups self names) ++ evs')%list ∧
    frame_reads evs' = 0%nat.
Proof.
  intros Hnone Hne. destruct (lookups_trace self names) as (evs & Ht & Hr).
  rewrite Hnone in Hr. destruct names as [|n names]; [done|].
  destruct (lookups_trace (lookups self (n :: names)) more) as (evs' & Ht' & Hr').
  exists evs, evs'. split_and!; try done.
  rewrite Hr'. destruct (lookups_cache self (n :: names)) as [df ->]; [by left|].
  by destruct more.
Qed.

Lemma partition_read_once_witness :
  ∃ evs evs',
    TableWrapper.trace (lookups example_accessor ["id"; "g_parent"]) = evs ∧
    frame_reads evs = 1%nat ∧
    TableWrapper.trace (lookups (lookups example_accessor ["id"; "g_parent"]) ["coord_ra"]) =
      (evs ++ evs')%list ∧
    frame_reads evs' = 0%nat.
Proof.
  destruct (partition_read_once example_accessor ["id"; "g_parent"] ["coord_ra"])
    as (evs & evs' & H1 & H2 & H3 & H4); [reflexivity|done|].
  exists evs, evs'. split_and!; try done. by rewrite H3, H1.
Defined.




(** X4. Membership is decided from the metadata, without reading the frame,
    and tells whether a lookup answers from storage. *)
Theorem contains_iff_stored (self : TableWrapper.t) (name : string) :
  accessor_ok self →
  ((TableWrapper.contains self name).1 = true ↔
   name ∈ dom (st_frame (TableWrapper.storer self))) ∧
  ((TableWrapper.contains self name).1 = true ↔
   arr_object (TableWrapper.get self name).1 = StoredColumn name) ∧
  TableWrapper._cache (TableWrapper.contains self name).2 = TableWrapper._cache self ∧
  TableWrapper._cache (TableWrapper.len self).2 = TableWrapper._cache self ∧
  accessor_ok (TableWrapper.contains self name).2.
Proof.
  intros H. unfold TableWrapper.contains.
  destruct (columns_spec self H) as (Hc & Hok).
  assert (Hcache : TableWrapper._cache (TableWrapper.columns self).2 = TableWrapper._cache self).
  { unfold TableWrapper.columns. by destruct (TableWrapper._columns self). }
  destruct (TableWrapper.columns self) as [c self']. simpl in *. subst c.
  rewrite bool_decide_eq_true.
  split_and!; try done.
  - rewrite elem_of_dom. unfold TableWrapper.get.
    destruct (st_frame (TableWrapper.storer self) !! name) as [c|] eqn:E.
    + rewrite (getitem_stored _ _ c) by done. simpl. split; eauto.
    + destruct (fill_cache_ok self H) as (Hokf & _).
      rewrite getitem_missing; [|done|by apply not_elem_of_dom].
      match goal with |- context [TableWrapper._generate_constant_array ?s ?d ?x] =>
        pose proof (generate_constant_array_object s d x Hokf) as Hobj;
        destruct (TableWrapper._generate_constant_array s d x) as [a self''] end.
      destruct Hobj as (_ & n & Hn & _). simpl. rewrite Hn. split; [by intros [? ?]|done].
  - by destruct (len_spec self H) as (_ & _ & _ & _ & -> & _).
Qed.

Lemma contains_iff_stored_witness :
  (TableWrapper.contains example_accessor "id").1 = true ∧
  (TableWrapper.contains example_accessor "g_parent").1 = false.
Proof.
  destruct (contains_iff_stored example_accessor "id" example_accessor_ok) as (H1 & _).
  destruct (contains_iff_stored example_accessor "g_parent" example_accessor_ok) as (H2 & _).
  split.
  - apply H1. apply elem_of_dom. by eexists.
  - apply not_true_is_false. intros Ht. apply H2 in Ht.
    apply elem_of_dom in Ht as [c Hc]. discriminate Hc.
Defined.

(** X5. The constructor of an accessor returns exactly when the file handle
    is open, the file has the group, and the group is a table or of the
    fixed format. *)
Theorem accessor_init_succeeds_iff (fh : HDFStore) (key : string) (schema : option Schema) :
  (∃ self, TableWrapper.init fh key schema = Ok self) ↔
  is_open fh = true ∧
  ∃ st, get_storer fh key = Some st ∧
        (st_is_table st = true ∨ st_format_type st = "fixed").
Proof.
  unfold TableWrapper.init. destruct (is_open fh); simpl; [|split; [by intros [? ?]|by intros [? _]]].
  destruct (get_storer fh key) as [st|]; [|split; [by intros [? ?]|by intros (_ & ? & ? & _)]].
  destruct (st_is_table st) eqn:Et; simpl.
  - split; [|eauto]. intros _. split; [done|]. exists st. auto.
  - destruct (String.eqb_spec (st_format_type st) "fixed") as [Hf|Hf]; simpl.
    + split; [|eauto]. intros _. split; [done|]. exists st. auto.
    + split; [by intros [? ?]|]. intros (_ & st' & [= <-] & [?|?]); congruence.
Qed.

(** * Further properties of the flag masks and the modifiers *)

Lemma flag_columns_Forall2 n flags :
  Forall (flag_column n) flags →
  ∃ cols, Forall2 (λ a c, bool_elements a = Some c ∧ length c = n) flags cols.
Proof.
  induction 1 as [|a flags (c & Hc & Hn) _ (cols & IH)]; [by exists []|].
  exists (c :: cols). by constructor.
Qed.

Lemma flag_mask_rows n flags :
  flags ≠ [] →
  Forall (flag_column n) flags →
  ∃ mask, create_basic_flag_mask flags = Ok mask ∧ length mask = n ∧
    ∀ i, (i < n)%nat →
      (mask !! i = Some true ↔
       ∀ a c, a ∈ flags → bool_elements a = Some c → c !! i = Some false).
Proof.
  intros Hne HF. destruct (flag_columns_Forall2 n flags HF) as (cols & H2).
  destruct (create_basic_flag_mask_spec flags cols n Hne H2) as (mask & Hm & Hl & Hiff).
  exists mask. split_and!; try done. intros i Hi. rewrite (Hiff i Hi). split.
  - intros H a c Ha Hc. apply list_elem_of_lookup in Ha as [j Hj].
    destruct (Forall2_lookup_l _ _ _ _ _ H2 Hj) as (c' & Hc' & Hbc & _).
    assert (c' = c) as -> by congruence. apply H. by eapply list_elem_of_lookup_2.
  - intros H c Hc. apply list_elem_of_lookup in Hc as [j Hj].
    destruct (Forall2_lookup_r _ _ _ _ _ H2 Hj) as (a & Ha & Hbc & _).
    apply (H a c); [by eapply list_elem_of_lookup_2|done].
Qed.

(** X6. The order of the flags does not matter. *)
Theorem flag_mask_order_irrelevant (n : nat) (flags1 flags2 : list ndarray) :
  flags1 ≡ₚ flags2 →
  flags1 ≠ [] →
  Forall (flag_column n) flags1 →
  ∃ mask, create_basic_flag_mask flags1 = Ok mask ∧
          create_basic_flag_mask flags2 = Ok mask.
Proof.
  intros Hp Hne HF.
  assert (Hne2 : flags2 ≠ []).
  { intros ->. by apply Permutation_nil_r in Hp. }
  assert (HF2 : Forall (flag_column n) flags2) by by rewrite <- Hp.
  destruct (flag_mask_rows n flags1 Hne HF) as (m1 & H1 & Hl1 & Hr1).
  destruct (flag_mask_rows n flags2 Hne2 HF2) as (m2 & H2 & Hl2 & Hr2).
  exists m1. split; [done|]. rewrite H2. f_equal.
  apply list_eq. intros i. destruct (decide (i < n)%nat) as [Hi|Hi].
  - destruct (lookup_lt_is_Some_2 m1 i) as [b1 Hb1]; [lia|].
    destruct (lookup_lt_is_Some_2 m2 i) as [b2 Hb2]; [lia|].
    specialize (Hr1 i Hi). specialize (Hr2 i Hi).
    assert (Hsame : m1 !! i = Some true ↔ m2 !! i = Some true).
    { rewrite Hr1, Hr2. by setoid_rewrite Hp. }
    rewrite Hb1, Hb2 in *. destruct b1, b2; try done.
    + by destruct Hsame as [-> _].
    + by destruct Hsame as [_ ->].
  - rewrite !lookup_ge_None_2; [done|lia|lia].
Qed.

Lemma flag_mask_order_irrelevant_witness :
  create_basic_flag_mask [bool_array [false; true]; bool_array [false; false]] =
  create_basic_flag_mask [bool_array [false; false]; bool_array [false; true]].
Proof.
  destruct (flag_mask_order_irrelevant 2
              [bool_array [false; true]; bool_array [false; false]]
              [bool_array [false; false]; bool_array [false; true]])
    as (mask & -> & ->); [apply Permutation_swap|done| |done].
  repeat constructor; by eexists.
Defined.

Lemma band_modifiers_other ps m band key :
  key ∉ band_quantities band →
  band_modifiers ps m band !! key = m !! key.
Proof.
  intros Hkey. unfold band_quantities in Hkey.
  repeat (apply not_elem_of_cons in Hkey as [? Hkey]).
  unfold band_modifiers, axes. simpl.
  rewrite !lookup_insert_ne by done. done.
Qed.

Lemma band_independent_other band key :
  key ∈ band_independent → key ∉ band_quantities band.
Proof.
  intros Hkey. unfold band_independent in Hkey. unfold band_quantities.
  repeat (apply elem_of_cons in Hkey as [->|Hkey];
          [repeat (apply not_elem_of_cons; split; [discriminate|]); apply not_elem_of_nil|]).
  by apply elem_of_nil in Hkey.
Qed.

Lemma foldl_band_modifiers_other ps bands m key :
  (∀ band, band ∈ bands → key ∉ band_quantities band) →
  foldl (band_modifiers ps) m bands !! key = m !! key.
Proof.
  revert m. induction bands as [|band bands IH]; intros m H; [done|].
  simpl. rewrite IH, band_modifiers_other; [done|apply H; by left|].
  intros b Hb. apply H. by right.
Qed.

Lemma band_independent_present key :
  key ∈ band_independent → is_Some (_generate_modifiers 0 [] !! key).
Proof.
  intros Hkey. unfold band_independent in Hkey.
  repeat (apply elem_of_cons in Hkey as [->|Hkey]; [by vm_compute; eexists|]).
  by apply elem_of_nil in Hkey.
Qed.

(** X7. No band can replace a quantity that does not depend on the bands. *)
Theorem band_independent_modifiers (pixel_scale : Q) (bands : list string) (key : string) :
  key ∈ band_independent →
  _generate_modifiers pixel_scale bands !! key = _generate_modifiers 0 [] !! key ∧
  is_Some (_generate_modifiers pixel_scale bands !! key).
Proof.
  intros Hkey.
  assert (Heq : _generate_modifiers pixel_scale bands !! key = _generate_modifiers 0 [] !! key).
  { unfold _generate_modifiers. rewrite foldl_band_modifiers_other; [done|].
    intros band _. by apply band_independent_other. }
  split; [done|]. rewrite Heq. by apply band_independent_present.
Qed.

Lemma band_independent_modifiers_witness :
  _generate_modifiers (2 # 10) ["g"; "good"; "x"] !! "good" =
    Some (Apply flag_mask not_good_flags).
Proof.
  destruct (band_independent_modifiers (2 # 10) ["g"; "good"; "x"] "good") as [-> _].
  - repeat (first [by apply list_elem_of_here | apply list_elem_of_further]).
  - reflexivity.
Defined.

Lemma band_entries_quantities ps band k v :
  (k, v) ∈ band_entries ps band → k ∈ band_quantities band.
Proof.
  unfold band_entries, band_quantities. intros H.
  repeat (apply elem_of_cons in H as [[= -> ->]|H];
          [repeat (first [by apply list_elem_of_here | apply list_elem_of_further])|]).
  by apply elem_of_nil in H.
Qed.

Lemma band_modifiers_same ps m c k v :
  (k, v) ∈ band_entries ps (String c "") →
  band_modifiers ps m (String c "") !! k = Some v.
Proof.
  unfold band_entries. intros H.
  repeat (apply elem_of_cons in H as [[= -> ->]|H];
          [unfold band_modifiers, axes; simpl;
           repeat (rewrite lookup_insert_ne by discriminate);
           apply lookup_insert_eq|]).
  by apply elem_of_nil in H.
Qed.

Lemma band_quantities_disjoint c c' k :
  c ≠ c' → k ∈ band_quantities (String c "") → k ∉ band_quantities (String c' "").
Proof.
  intros Hne H. unfold band_quantities in *.
  repeat (apply elem_of_cons in H as [->|H];
          [repeat (apply not_elem_of_cons; split;
                   [first [discriminate | intros [= ->]; congruence]|]);
           apply not_elem_of_nil|]).
  by apply elem_of_nil in H.
Qed.

Lemma one_character_inv s : one_character s → ∃ c, s = String c "".
Proof. destruct s as [|c [|d s]]; try done. by exists c. Qed.

Lemma foldl_band_modifiers_entry ps bands m band k v :
  Forall one_character bands →
  one_character band →
  (k, v) ∈ band_entries ps band →
  band ∈ bands ∨ m !! k = Some v →
  foldl (band_modifiers ps) m bands !! k = Some v.
Proof.
  intros Hbands (c & ->)%one_character_inv Hkv. revert m.
  induction Hbands as [|band' bands (c' & ->)%one_character_inv _ IH]; intros m H; simpl.
  - destruct H as [H|H]; [by apply elem_of_nil in H|done].
  - apply IH. destruct (decide (c' = c)) as [->|Hne].
    + right. by apply band_modifiers_same.
    + destruct H as [H|H].
      * apply elem_of_cons in H as [[= ?]|H]; [congruence|by left].
      * right. rewrite band_modifiers_other; [done|].
        eapply band_quantities_disjoint; [|by eapply band_entries_quantities]. congruence.
Qed.

(** X8. For bands of one character each, every band keeps all its
    sixteen quantities. *)
Theorem band_modifiers_kept (pixel_scale : Q) (bands : list string) (band : string)
    (k : string) (v : modifier) :
  Forall one_character bands →
  band ∈ bands →
  (k, v) ∈ band_entries pixel_scale band →
  _generate_modifiers pixel_scale bands !! k = Some v.
Proof.
  intros Hbands Hband Hkv. unfold _generate_modifiers.
  apply (foldl_band_modifiers_entry _ _ _ band); try done; [|by left].
  rewrite Forall_forall in Hbands. by apply Hbands.
Qed.

Lemma band_modifiers_kept_witness :
  _generate_modifiers (2 # 10) ["g"; "r"; "i"] !! "snr_g_cModel" =
    Some (Apply np_divide ["g_modelfit_CModel_flux"; "g_modelfit_CModel_fluxSigma"]).
Proof.
  apply (band_modifiers_kept (2 # 10) ["g"; "r"; "i"] "g").
  - by repeat constructor.
  - by left.
  - unfold band_entries. do 14 apply list_elem_of_further. by left.
Defined.

(** With longer band names a quantity of one band can be replaced by that
    of another. *)
Lemma band_modifiers_replaced :
  _generate_modifiers (2 # 10) ["g"; "g_cModel"] !! "mag_g_cModel" =
    Some (Native "g_cModel_mag").
Proof. vm_compute. reflexivity. Qed.

(** * Further properties of the catalog *)

Section catalog_properties.
Import DC2ObjectCatalog.

Lemma band_of_column col b :
  (if ((String.length col =? 5)%nat && Py.endswith col "_mag")%bool
   then Some (substring 0 1 col) else None) = Some b ↔
  ∃ c, col = String c "_mag" ∧ b = String c "".
Proof.
  split.
  - destruct col as [|c0 [|c1 [|c2 [|c3 [|c4 [|c5 col]]]]]]; try done.
    unfold Py.endswith. simpl.
    destruct (Ascii.eqb_spec c1 "_") as [->|]; [|done].
    destruct (Ascii.eqb_spec c2 "m") as [->|]; [|done].
    destruct (Ascii.eqb_spec c3 "a") as [->|]; [|done].
    destruct (Ascii.eqb_spec c4 "g") as [->|]; [|done].
    intros [= <-]. by exists c0.
  - intros (c & -> & ->). unfold Py.endswith. simpl. done.
Qed.

Lemma detect_bands_elem (columns : list string) (band : string) :
  band ∈ detect_bands columns ↔
  ∃ c, band = String c "" ∧ String c "_mag" ∈ columns.
Proof.
  unfold detect_bands. rewrite list_elem_of_omap. split.
  - intros (col & Hin & Hb). apply band_of_column in Hb as (c & -> & ->). eauto.
  - intros (c & -> & Hin). exists (String c "_mag"). split; [done|].
    apply band_of_column. eauto.
Qed.

(** X9. The bands are the first characters of the columns that are one
    character followed by [_mag]. *)
Theorem detect_bands_spec (columns : list string) (band : string) :
  band ∈ detect_bands columns ↔
  ∃ c, band = String c "" ∧ String c "_mag" ∈ columns.
Proof. apply detect_bands_elem. Qed.

(** X10. Every magnitude column of the catalog is offered under its
    homogenized name. *)
Theorem magnitude_columns_offered (pixel_scale : Q) (columns : list string) (c : ascii) :
  String c "_mag" ∈ columns →
  _generate_modifiers pixel_scale (detect_bands columns) !! ("mag_" ++ String c "") =
    Some (Native (String c "_mag")).
Proof.
  intros Hin. unfold _generate_modifiers.
  apply (foldl_band_modifiers_entry _ _ _ (String c "")); [|done|by left|left].
  - apply Forall_forall. intros b (c' & -> & _)%detect_bands_elem. done.
  - apply detect_bands_elem. eauto.
Qed.

Lemma magnitude_columns_offered_witness :
  _generate_modifiers (2 # 10) (detect_bands ["id"; "g_mag"; "g_mag_err"; "r_mag"]) !! "mag_r" =
    Some (Native "r_mag").
Proof.
  apply (magnitude_columns_offered (2 # 10) ["id"; "g_mag"; "g_mag_err"; "r_mag"] "r").
  do 3 apply list_elem_of_further. by left.
Defined.

(** X11. The order in which the directory lists its entries does not
    matter. *)
Theorem listing_order_irrelevant (W : World) (base_dir : string)
    (filename_re groupname_re : pattern) (schema : option Schema)
    (names names' : list string) (st : state) :
  directories W !! base_dir = Some names →
  names ≡ₚ names' →
  _generate_datasets (relist W base_dir names') base_dir filename_re groupname_re schema st =
  _generate_datasets W base_dir filename_re groupname_re schema st.
Proof.
  intros Hdir Hperm. unfold _generate_datasets, listdir. simpl.
  rewrite lookup_insert_eq, Hdir. unfold mbind, M_bind, lift. simpl.
  rewrite (scan_files_world W (relist W base_dir names')) by done.
  f_equal. unfold sorted. apply (StronglySorted_unique str_le).
  - apply StronglySorted_merge_sort; apply _.
  - apply StronglySorted_merge_sort; apply _.
  - by rewrite !merge_sort_Permutation.
Qed.

Lemma listing_order_irrelevant_witness :
  _generate_datasets
    (relist example_world "dc2_object_data"
       ["object_tract_4850.hdf5"; "object_tract_4851.hdf5"; "schema.yaml"])
    "dc2_object_data" Re.FILE_PATTERN Re.GROUP_PATTERN None initial =
  _generate_datasets example_world "dc2_object_data" Re.FILE_PATTERN Re.GROUP_PATTERN None initial.
Proof.
  apply (listing_order_irrelevant example_world "dc2_object_data" Re.FILE_PATTERN
           Re.GROUP_PATTERN None
           ["schema.yaml"; "object_tract_4851.hdf5"; "object_tract_4850.hdf5"]).
  - reflexivity.
  - apply (Permutation_rev ["schema.yaml"; "object_tract_4851.hdf5"; "object_tract_4850.hdf5"]).
Defined.

Lemma open_hdf5_ok W p st :
  handles_ok W st →
  handles_ok W (_open_hdf5 W p st).2 ∧
  (∀ fh, (_open_hdf5 W p st).1 = Ok fh →
     _file_handles (_open_hdf5 W p st).2 !! p = Some fh ∧
     fh = {| hs_path := p; is_open := true; hs_groups := default [] (hdf5_files W !! p) |} ∧
     is_Some (hdf5_files W !! p)) ∧
  (∀ q fh, _file_handles (_open_hdf5 W p st).2 !! q = Some fh →
     _file_handles st !! q = Some fh ∨ (q = p ∧ (_open_hdf5 W p st).1 = Ok fh)).
Proof.
  intros Hst. unfold _open_hdf5, HDFStore_open.
  destruct (_file_handles st !! p) as [fh0|] eqn:E.
  - destruct (Hst _ _ E) as [Hfh Hsome].
    assert (is_open fh0 = true) as -> by by rewrite Hfh.
    simpl. split_and!; [done| |by left].
    by intros fh [= <-].
  - destruct (hdf5_files W !! p) as [groups|] eqn:Eh; simpl.
    + split_and!.
      * intros q fh. simpl. rewrite lookup_insert. case_decide as Hq.
        -- intros [= <-]. subst q. rewrite Eh. eauto.
        -- apply Hst.
      * intros fh [= <-]. rewrite lookup_insert_eq. eauto.
      * intros q fh. rewrite lookup_insert. case_decide as Hq; [|by left].
        intros [= <-]. by right.
    + split_and!; [done|done|by left].
Qed.

Section handles.

Context (W : World) (base_dir : string) (filename_re groupname_re : pattern)
        (schema : option Schema).

Local Abbreviation scan := (scan_files W base_dir filename_re groupname_re schema).

Lemma scan_groups_handles fh path keys ds st :
  _file_handles (scan_groups groupname_re schema fh path keys ds st).2 = _file_handles st.
Proof.
  destruct (scan_groups_frame groupname_re schema fh path keys ds) as (r & ws & ->). done.
Qed.

Lemma scan_files_handles l ds st :
  handles_ok W st →
  handles_ok W (scan l ds st).2 ∧
  ∀ p fh, _file_handles (scan l ds st).2 !! p = Some fh →
    _file_handles st !! p = Some fh ∨
    ∃ name, name ∈ l ∧ filename_re name = true ∧ p = path_join base_dir name.
Proof.
  revert ds st. induction l as [|g l IH]; intros ds st Hst; simpl; [by split; [|left]|].
  assert (Hlater : ∀ st', handles_ok W st' →
            (∀ p fh, _file_handles st' !! p = Some fh →
               _file_handles st !! p = Some fh ∨
               ∃ name, name ∈ g :: l ∧ filename_re name = true ∧ p = path_join base_dir name) →
            ∀ ds', handles_ok W (scan l ds' st').2 ∧
              ∀ p fh, _file_handles (scan l ds' st').2 !! p = Some fh →
                _file_handles st !! p = Some fh ∨
                ∃ name, name ∈ g :: l ∧ filename_re name = true ∧ p = path_join base_dir name).
  { intros st' Hok' Hfrom ds'. destruct (IH ds' st' Hok') as [Hok'' Hin].
    split; [done|]. intros p fh Hp. destruct (Hin p fh Hp) as [H|(name & ? & ? & ?)].
    - by apply Hfrom.
    - right. exists name. split_and!; try done. by right. }
  destruct (filename_re g) eqn:Eg; simpl; [|apply Hlater; [done|by left]].
  destruct (open_hdf5_ok W (path_join base_dir g) st Hst) as (Hok1 & _ & Hfrom1).
  assert (Hfrom : ∀ p fh, _file_handles (_open_hdf5 W (path_join base_dir g) st).2 !! p = Some fh →
            _file_handles st !! p = Some fh ∨
            ∃ name, name ∈ g :: l ∧ filename_re name = true ∧ p = path_join base_dir name).
  { intros p fh Hp. destruct (Hfrom1 p fh Hp) as [?|[-> _]]; [by left|].
    right. exists g. split_and!; try done. by left. }
  destruct (_open_hdf5 W (path_join base_dir g) st) as [[fh|e] st1]; simpl in *.
  - unfold mbind, M_bind.
    pose proof (scan_groups_handles fh (path_join base_dir g) (hs_groups fh).*1 ds st1) as Hh.
    destruct (scan_groups groupname_re schema fh (path_join base_dir g) (hs_groups fh).*1 ds st1)
      as [[ds1|e] st2]; simpl in *.
    + apply Hlater.
      * intros p fh'. rewrite Hh. apply Hok1.
      * intros p fh'. rewrite Hh. apply Hfrom.
    + split.
      * intros p fh'. rewrite Hh. apply Hok1.
      * intros p fh'. rewrite Hh. apply Hfrom.
  - destruct e; try (split; [done|apply Hfrom]).
    unfold mbind, M_bind, warn. by apply Hlater.
Qed.

End handles.

(** X12. Discovery opens no file whose name does not match. *)
Theorem only_matching_files_opened (W : World) (base_dir : string)
    (filename_re groupname_re : pattern) (schema : option Schema)
    (names : list string) (p : string) (fh : HDFStore) :
  directories W !! base_dir = Some names →
  _file_handles (_generate_datasets W base_dir filename_re groupname_re schema initial).2 !! p
    = Some fh →
  is_open fh = true ∧
  hdf5_files W !! p = Some (hs_groups fh) ∧
  ∃ name, name ∈ names ∧ filename_re name = true ∧ p = path_join base_dir name.
Proof.
  intros Hdir. unfold _generate_datasets, listdir. rewrite Hdir.
  unfold mbind, M_bind, lift. simpl. intros Hp.
  destruct (scan_files_handles W base_dir filename_re groupname_re schema (sorted names) []
              initial) as [Hok Hfrom].
  { intros q fh'. simpl. by rewrite lookup_empty. }
  destruct (Hok _ _ Hp) as [-> [groups Hg]]. rewrite Hg. simpl. split_and!; try done.
  destruct (Hfrom _ _ Hp) as [H|(name & Hin & Hm & ->)].
  - simpl in H. by rewrite lookup_empty in H.
  - exists name. split_and!; try done. unfold sorted in Hin.
    by rewrite merge_sort_Permutation in Hin.
Qed.

Lemma only_matching_files_opened_witness :
  ∃ name, name ∈ ["schema.yaml"; "object_tract_4851.hdf5"; "object_tract_4850.hdf5"] ∧
    Re.FILE_PATTERN name = true ∧
    "dc2_object_data/object_tract_4850.hdf5" = path_join "dc2_object_data" name.
Proof.
  edestruct (only_matching_files_opened example_world "dc2_object_data"
               Re.FILE_PATTERN Re.GROUP_PATTERN None
               ["schema.yaml"; "object_tract_4851.hdf5"; "object_tract_4850.hdf5"]
               "dc2_object_data/object_tract_4850.hdf5") as (_ & _ & H).
  - reflexivity.
  - vm_compute. reflexivity.
  - exact H.
Defined.

Lemma scan_groups_raises gre schema fh path keys key ds st :
  key ∈ keys →
  gre (Py.lstrip "/" key) = true →
  (∃ e, ObjectTableWrapper.init fh key schema = Raise e) →
  ∃ e, (scan_groups gre schema fh path keys ds st).1 = Raise e.
Proof.
  intros Hin Hmatch [e He]. revert ds st.
  induction keys as [|k keys IH]; intros ds st; [by apply elem_of_nil in Hin|].
  simpl. destruct (decide (k = key)) as [->|Hk].
  - rewrite Hmatch. unfold mbind, M_bind, lift. rewrite He. eauto.
  - apply elem_of_cons in Hin as [?|Hin]; [congruence|].
    destruct (gre (Py.lstrip "/" k)).
    + unfold mbind, M_bind, lift. destruct (ObjectTableWrapper.init fh k schema); [|eauto].
      by apply IH.
    + unfold mbind, M_bind, warn. by apply IH.
Qed.

Lemma scan_files_raises W bd fre gre schema l name groups key ds st :
  handles_ok W st →
  name ∈ l →
  fre name = true →
  hdf5_files W !! path_join bd name = Some groups →
  key ∈ groups.*1 →
  gre (Py.lstrip "/" key) = true →
  (∃ e, ObjectTableWrapper.init
          {| hs_path := path_join bd name; is_open := true; hs_groups := groups |}
          key schema = Raise e) →
  ∃ e, (scan_files W bd fre gre schema l ds st).1 = Raise e.
Proof.
  intros Hst Hin Hmatch Hfile Hkey Hgre Hinit. revert ds st Hst.
  induction l as [|g l IH]; intros ds st Hst; [by apply elem_of_nil in Hin|].
  simpl. destruct (decide (g = name)) as [->|Hg].
  - rewrite Hmatch. simpl.
    destruct (open_hdf5_ok W (path_join bd name) st Hst) as (_ & Hopen & _).
    destruct (open_hdf5_spec W (path_join bd name) st)
      as [(fh & Ho & _)|[(gs & _ & Ho)|(Hnone & _)]]; [| |congruence].
    + rewrite Ho in *. destruct (Hopen fh eq_refl) as (_ & -> & _).
      rewrite Hfile. simpl. unfold mbind, M_bind.
      match goal with |- context [scan_groups gre schema ?fh ?p ?ks ds st] =>
        destruct (scan_groups_raises gre schema fh p ks key ds st Hkey Hgre Hinit) as [e He];
        destruct (scan_groups gre schema fh p ks ds st) as [r st'] end.
      simpl in He. subst r. eauto.
    + rewrite Ho in *. destruct (Hopen _ eq_refl) as (_ & Hfh & _).
      injection Hfh as Hgs. rewrite Hfile in Hgs. simpl in Hgs. subst gs.
      unfold mbind, M_bind.
      match goal with |- context [scan_groups gre schema ?fh ?p ?ks ds ?s] =>
        destruct (scan_groups_raises gre schema fh p ks key ds s Hkey Hgre Hinit) as [e He];
        destruct (scan_groups gre schema fh p ks ds s) as [r st'] end.
      simpl in He. subst r. eauto.
  - apply elem_of_cons in Hin as [?|Hin]; [congruence|].
    destruct (fre g); simpl; [|by apply IH].
    destruct (open_hdf5_ok W (path_join bd g) st Hst) as (Hok1 & _).
    destruct (_open_hdf5 W (path_join bd g) st) as [[fh|e] st1]; simpl in *.
    + unfold mbind, M_bind.
      pose proof (scan_groups_handles gre schema fh (path_join bd g) (hs_groups fh).*1 ds st1) as Hh.
      destruct (scan_groups gre schema fh (path_join bd g) (hs_groups fh).*1 ds st1)
        as [[ds1|e] st2]; simpl in *; [|eauto].
      apply IH; [done|]. intros p fh'. rewrite Hh. apply Hok1.
    + destruct e; eauto. unfold mbind, M_bind, warn. by apply IH.
Qed.

Lemma assoc_elem {A} key (l : list (string * A)) v :
  assoc key l = Some v → (key, v) ∈ l.
Proof.
  induction l as [|[k x] l IH]; simpl; [done|].
  destruct (String.eqb_spec k key) as [->|].
  - intros [= ->]. by left.
  - intros H. right. by apply IH.
Qed.

(** X13. A matching group of a layout that is not supported ends the
    discovery with an error; it is not skipped. *)
Theorem unsupported_layout_aborts (W : World) (kwargs : Config)
    (names : list string) (name key : string) (groups : list (string * Storer)) (st : Storer) :
  directories W !! base_dir kwargs = Some names →
  name ∈ names →
  filename_re_of kwargs name = true →
  hdf5_files W !! path_join (base_dir kwargs) name = Some groups →
  groupname_re_of kwargs (Py.lstrip "/" key) = true →
  assoc key groups = Some st →
  st_is_table st = false →
  st_format_type st ≠ "fixed" →
  ∃ e, (construct W kwargs).1 = Raise e.
Proof.
  intros Hdir Hin Hmatch Hfile Hgre Hassoc Htable Hfmt.
  pose proof (assoc_elem _ _ _ Hassoc) as Hkey.
  unfold construct, _subclass_init.
  fold (filename_re_of kwargs) (groupname_re_of kwargs) (schema_path_of kwargs).
  rewrite bool_decide_eq_true_2 by (by rewrite Hdir). simpl.
  destruct (load_schema_returns W (schema_path_of kwargs) initial) as (schema & ws & Hload & _).
  unfold mbind at 1, M_bind at 1. rewrite Hload.
  unfold mbind at 1, M_bind at 1.
  unfold _generate_datasets, listdir. rewrite Hdir. unfold mbind at 1, M_bind at 1, lift.
  destruct (scan_files_raises W (base_dir kwargs) (filename_re_of kwargs) (groupname_re_of kwargs)
              schema (sorted names) name groups key [] (add_warnings ws initial)) as [e He];
    try done.
  - unfold sorted. by rewrite merge_sort_Permutation.
  - apply list_elem_of_fmap. by exists (key, st).
  - unfold ObjectTableWrapper.init, TableWrapper.init, get_storer. simpl. rewrite Hassoc.
    rewrite Htable. simpl.
    destruct (String.eqb_spec (st_format_type st) "fixed"); [done|]. simpl.
    destruct (Py.split "_" key !! 1%nat); simpl; [|eauto].
    destruct (Py.int s); simpl; [|eauto].
    destruct (Py.split "_" key !! 2%nat); simpl; eauto.
  - destruct (scan_files _ _ _ _ _ _ _ _) as [r st']. simpl in He. subst r. eauto.
Qed.

Lemma unsupported_layout_aborts_witness :
  ∃ e, (construct legacy_world example_kwargs).1 = Raise e.
Proof.
  eapply (unsupported_layout_aborts legacy_world example_kwargs
            ["object_tract_4850.hdf5"] "object_tract_4850.hdf5" example_key).
  - reflexivity.
  - by left.
  - reflexivity.
  - reflexivity.
  - reflexivity.
  - reflexivity.
  - reflexivity.
  - discriminate.
Defined.

Lemma object_init_untouched fh key schema d :
  ObjectTableWrapper.init fh key schema = Ok d → untouched d.
Proof.
  unfold ObjectTableWrapper.init, TableWrapper.init. intros H.
  destruct (Py.split "_" key !! 1%nat); simpl in H; [|done].
  destruct (Py.int s); simpl in H; [|done].
  destruct (Py.split "_" key !! 2%nat); simpl in H; [|done].
  destruct (negb (is_open fh)); [done|].
  destruct (get_storer fh key); [|done].
  destruct (negb (st_is_table s1) && negb (String.eqb (st_format_type s1) "fixed")); [done|].
  simpl in H. by injection H as <-.
Qed.

Lemma scan_groups_untouched gre schema fh path keys ds st ds' st' :
  Forall untouched ds →
  scan_groups gre schema fh path keys ds st = (Ok ds', st') →
  Forall untouched ds'.
Proof.
  revert ds st. induction keys as [|key keys IH]; intros ds st Hds; simpl.
  - by intros [= <- _].
  - destruct (gre (Py.lstrip "/" key)).
    + unfold mbind, M_bind, lift.
      destruct (ObjectTableWrapper.init fh key schema) as [d|e] eqn:E; [|done].
      apply IH. apply Forall_app. split; [done|].
      apply Forall_singleton. by eapply object_init_untouched.
    + unfold mbind, M_bind, warn. by apply IH.
Qed.

Lemma scan_files_untouched W bd fre gre schema l ds st ds' st' :
  Forall untouched ds →
  scan_files W bd fre gre schema l ds st = (Ok ds', st') →
  Forall untouched ds'.
Proof.
  revert ds st. induction l as [|g l IH]; intros ds st Hds; simpl.
  - by intros [= <- _].
  - destruct (fre g); simpl; [|by apply IH].
    destruct (_open_hdf5 W (path_join bd g) st) as [[fh|e] st1].
    + unfold mbind, M_bind.
      destruct (scan_groups gre schema fh (path_join bd g) (hs_groups fh).*1 ds st1)
        as [[ds1|e] st2] eqn:E; [|done].
      apply IH. by eapply scan_groups_untouched.
    + destruct e; try done. unfold mbind, M_bind, warn. by apply IH.
Qed.

Lemma generate_columns_no_data ds :
  Forall untouched ds → Forall no_data_read (_generate_columns ds).2.
Proof.
  induction 1 as [|d ds (Ht & Hc & Hk) _ IH]; simpl; [done|].
  unfold ObjectTableWrapper.columns, TableWrapper.columns.
  destruct (_generate_columns ds) as [cs ds'].
  destruct (TableWrapper._columns (ObjectTableWrapper.table d)); simpl.
  - constructor; [|done]. split_and!; simpl; try done. rewrite Ht. apply not_elem_of_nil.
  - constructor; [|done]. split_and!; simpl; try done. rewrite Ht. simpl.
    by rewrite list_elem_of_singleton.
Qed.

(** X14. Constructing the catalog reads no data of any partition, and the
    modifiers it builds are those of the bands of its columns. *)
Theorem construction_reads_no_data (W : World) (kwargs : Config) (c : t) (st : state) :
  construct W kwargs = (Ok c, st) →
  Forall no_data_read (_datasets c) ∧
  _datasets c ≠ [] ∧
  (schema_truthy (_schema c) = true →
   Forall untouched (_datasets c) ∧ _columns c = dom (default ∅ (_schema c))) ∧
  _quantity_modifiers c =
    _generate_modifiers (self_pixel_scale c) (detect_bands (elements (_columns c))).
Proof.
  unfold construct, _subclass_init.
  destruct (bool_decide (is_Some (directories W !! base_dir kwargs))); simpl; [|done].
  unfold mbind at 1, M_bind at 1.
  destruct (load_schema W _ initial) as [[schema|e] st1]; [|done].
  unfold mbind at 1, M_bind at 1.
  destruct (_generate_datasets W _ _ _ schema st1) as [[ds|e] st2] eqn:Escan; [|done].
  assert (Hds : Forall untouched ds).
  { unfold _generate_datasets, listdir in Escan.
    destruct (directories W !! base_dir kwargs); [|done].
    unfold mbind, M_bind, lift in Escan. simpl in Escan.
    by eapply scan_files_untouched. }
  destruct ds as [|d ds]; [done|].
  destruct (schema_truthy schema) eqn:Etruthy.
  - unfold mbind, M_bind, mret, M_ret. simpl. intros [= <- <-]. simpl.
    split_and!; try done.
    eapply Forall_impl; [exact Hds|]. intros d' (Ht & Hc & Hk). split_and!; try done.
    rewrite Ht. apply not_elem_of_nil.
  - unfold mbind, M_bind, warn, mret, M_ret.
    pose proof (generate_columns_no_data (d :: ds) Hds) as Hno.
    assert (Hlen : (_generate_columns (d :: ds)).2 ≠ []).
    { simpl. destruct (ObjectTableWrapper.columns d), (_generate_columns ds). done. }
    destruct (_generate_columns (d :: ds)) as [cs ds'].
    intros [= <- <-]. simpl in *. rewrite Etruthy. split_and!; try done.
Qed.

Lemma construction_reads_no_data_witness :
  ∃ c st, construct example_world example_kwargs = (Ok c, st) ∧
    Forall no_data_read (_datasets c).
Proof.
  destruct (construct example_world example_kwargs) as [[c|e] st] eqn:E.
  - exists c, st. split; [done|].
    by apply (construction_reads_no_data example_world example_kwargs c st E).
  - exfalso. revert E. vm_compute. discriminate.
Defined.

Lemma StronglySorted_le_lt (l : list Z) :
  StronglySorted Z.le l → NoDup l → StronglySorted Z.lt l.
Proof.
  induction 1 as [|x l Hl IH Hx]; intros Hnd; [constructor|].
  apply NoDup_cons in Hnd as [Hx' Hnd]. constructor; [by apply IH|].
  rewrite Forall_forall in *. intros y Hy.
  specialize (Hx y Hy). assert (x ≠ y) by (by intros ->). lia.
Qed.

(** X15. The available tracts are in ascending order, each once, and they
    are the tracts of the partitions. *)
Theorem available_tracts_sorted (self : t) :
  StronglySorted Z.lt (available_tracts self) ∧
  ∀ tract, tract ∈ available_tracts self ↔
           ∃ d, d ∈ _datasets self ∧ ObjectTableWrapper.tract d = tract.
Proof.
  unfold available_tracts. split.
  - apply StronglySorted_le_lt.
    + apply StronglySorted_merge_sort; apply _.
    + rewrite merge_sort_Permutation. apply NoDup_elements.
  - intros tract. rewrite merge_sort_Permutation, elem_of_elements, elem_of_list_to_set.
    rewrite list_elem_of_fmap. split.
    + intros (d & -> & Hd). eauto.
    + intros (d & Hd & <-). eauto.
Qed.

(** X16. A second [_open_hdf5] of a path returns the handle of the first and
    leaves the table as it is. *)
Theorem open_hdf5_reuses_handle (W : World) (file_path : string) (st st' : state)
    (fh : HDFStore) :
  _open_hdf5 W file_path st = (Ok fh, st') →
  _open_hdf5 W file_path st' = (Ok fh, st') ∧
  _file_handles st' !! file_path = Some fh ∧
  is_open fh = true ∧
  ∀ other, other ≠ file_path → _file_handles st' !! other = _file_handles st !! other.
Proof.
  unfold _open_hdf5, HDFStore_open.
  destruct (_file_handles st !! file_path) as [fh0|] eqn:E.
  - destruct (is_open fh0) eqn:Eo.
    + intros [= <- <-]. by rewrite E, Eo.
    + destruct (hdf5_files W !! file_path) as [groups|]; [|done].
      intros [= <- <-]. simpl. rewrite lookup_insert_eq. simpl. split_and!; try done.
      intros other Hne. by rewrite lookup_insert_ne.
  - destruct (hdf5_files W !! file_path) as [groups|]; [|done].
    intros [= <- <-]. simpl. rewrite lookup_insert_eq. simpl. split_and!; try done.
    intros other Hne. by rewrite lookup_insert_ne.
Qed.

Lemma open_hdf5_reuses_handle_witness :
  ∃ fh st',
    _open_hdf5 example_world "dc2_object_data/object_tract_4850.hdf5" initial = (Ok fh, st') ∧
    _open_hdf5 example_world "dc2_object_data/object_tract_4850.hdf5" st' = (Ok fh, st').
Proof.
  eexists _, _. split; [reflexivity|].
  apply (open_hdf5_reuses_handle example_world _ initial). reflexivity.
Defined.

(** X17. After [close_all_file_handles] the table is empty, every handle it
    held is closed, and no accessor can be constructed over one of them. *)
Theorem closed_handles_are_stale (st : state) (fh : HDFStore) (key : string)
    (schema : option Schema) :
  fh ∈ (close_all_file_handles st).1 →
  _file_handles (close_all_file_handles st).2 = ∅ ∧
  is_open fh = false ∧
  TableWrapper.init fh key schema = Raise (ValueError "file handle has been closed!") ∧
  ∃ e, ObjectTableWrapper.init fh key schema = Raise e.
Proof.
  unfold close_all_file_handles. simpl.
  intros (fh0 & -> & _)%list_elem_of_fmap. simpl.
  assert (Htw : TableWrapper.init (HDFStore_close fh0) key schema =
                Raise (ValueError "file handle has been closed!")) by done.
  split_and!; try done.
  unfold ObjectTableWrapper.init. rewrite Htw.
  destruct (Py.split "_" key !! 1%nat); simpl; [|eauto].
  destruct (Py.int s); simpl; [|eauto].
  destruct (Py.split "_" key !! 2%nat); simpl; eauto.
Qed.

Lemma closed_handles_are_stale_witness :
  TableWrapper.init
    (HDFStore_close {| hs_path := "dc2_object_data/object_tract_4850.hdf5"; is_open := true;
                       hs_groups := [(example_key, example_storer)] |})
    example_key None =
  Raise (ValueError "file handle has been closed!").
Proof.
  apply (closed_handles_are_stale
           (_open_hdf5 example_world "dc2_object_data/object_tract_4850.hdf5" initial).2).
  vm_compute. by left.
Defined.

Lemma iter_loop_yields use_cache filters quantities datasets :
  (iter_loop use_cache filters quantities datasets).1 =
  (λ d, (fetch d quantities).1) <$> filter (λ d, passes filters d = true) datasets.
Proof.
  induction datasets as [|d ds IH]; [done|].
  rewrite filter_cons. cbn [iter_loop].
  change (match filters with
          | Some check_scalar => check_scalar (ObjectTableWrapper.tract_and_patch d)
          | None => true
          end) with (passes filters d).
  destruct (iter_loop use_cache filters quantities ds) as [yields rest]. simpl in IH.
  destruct (passes filters d) eqn:E.
  - rewrite decide_True by done. destruct (fetch d quantities) as [arrays d'] eqn:F.
    simpl. by rewrite F, IH.
  - rewrite decide_False by done. done.
Qed.

Lemma iter_loop_datasets (use_cache : bool) filters quantities datasets :
  Forall2 (λ d d',
             d' = if passes filters d
                  then if use_cache then (fetch d quantities).2
                       else ObjectTableWrapper.clear_cache (fetch d quantities).2
                  else d)
          datasets (iter_loop use_cache filters quantities datasets).2.
Proof.
  induction datasets as [|d ds IH]; [constructor|].
  cbn [iter_loop].
  change (match filters with
          | Some check_scalar => check_scalar (ObjectTableWrapper.tract_and_patch d)
          | None => true
          end) with (passes filters d).
  destruct (iter_loop use_cache filters quantities ds) as [yields rest]. simpl in IH.
  destruct (passes filters d) eqn:E.
  - destruct (fetch d quantities) as [arrays d'] eqn:F. simpl. constructor; [|done].
    rewrite ?E, ?F. by destruct use_cache.
  - simpl. constructor; [|done]. by rewrite ?E.
Qed.

(** X18. The generator yields, in the order of the partitions, what the
    caller fetches from each partition that passes the filters, whether or
    not caches are kept. *)
Theorem iteration_yields (self : t) (native_filters : option (Z * string → bool))
    (quantities : list string) :
  (_iter_native_dataset self native_filters quantities).1 =
  (λ d, (fetch d quantities).1)
    <$> filter (λ d, passes native_filters d = true) (_datasets self).
Proof.
  unfold _iter_native_dataset.
  pose proof (iter_loop_yields (self_use_cache self) native_filters quantities (_datasets self)).
  by destruct (iter_loop _ _ _ _).
Qed.

(** X19. A partition that does not pass the filters is not touched, and
    without [use_cache] a partition that passes keeps nothing in memory. *)
Theorem iteration_filters_and_clears (self : t)
    (native_filters : option (Z * string → bool)) (quantities : list string) :
  Forall2 (λ d d',
             ObjectTableWrapper.tract d' = ObjectTableWrapper.tract d ∧
             ObjectTableWrapper.patch d' = ObjectTableWrapper.patch d ∧
             (passes native_filters d = false → d' = d) ∧
             (passes native_filters d = true → self_use_cache self = false →
              holds_nothing d'))
          (_datasets self)
          (_datasets (_iter_native_dataset self native_filters quantities).2).
Proof.
  unfold _iter_native_dataset.
  pose proof (iter_loop_datasets (self_use_cache self) native_filters quantities
                (_datasets self)) as H.
  destruct (iter_loop _ _ _ _) as [yields ds']. simpl in *.
  eapply Forall2_impl; [exact H|]. intros d d' Hd. simpl in Hd.
  assert (Hfetch : ∀ qs d0, ObjectTableWrapper.tract (fetch d0 qs).2 = ObjectTableWrapper.tract d0 ∧
                            ObjectTableWrapper.patch (fetch d0 qs).2 = ObjectTableWrapper.patch d0).
  { induction qs as [|q qs IH]; intros d0; [done|]. simpl.
    unfold ObjectTableWrapper.get.
    destruct (TableWrapper.get (ObjectTableWrapper.table d0) q) as [a tw].
    specialize (IH (ObjectTableWrapper.with_table d0 tw)).
    destruct (fetch (ObjectTableWrapper.with_table d0 tw) qs) as [arrays d1]. done. }
  destruct (Hfetch quantities d) as [Ht Hp].
  destruct (passes native_filters d); [|by subst].
  destruct (self_use_cache self); subst d'; split_and!; try done.
Qed.





End catalog_properties.

(** * Further properties of the e-image reader *)

Section reader_properties.
Import EImage.

(** ** Lemmas *)

Lemma digit_not_dash c : Py.is_digit c = true → Ascii.eqb c "-" = false.
Proof. destruct c as [[] [] [] [] [] [] [] []]; done. Qed.

Lemma span_digits_dash_free s ds rest :
  Re.span_digits s = (ds, rest) → dash_free ds.
Proof.
  revert ds rest. induction s as [|c s IH]; intros ds rest; simpl.
  - by intros [= <- <-].
  - destruct (Py.is_digit c) eqn:E; [|by intros [= <- <-]].
    destruct (Re.span_digits s) as [ds' rest']. intros [= <- <-].
    unfold dash_free. simpl. rewrite (digit_not_dash c E). simpl. by eapply IH.
Qed.

Lemma digits1_dash_free s ds rest : Re.digits1 s = Some (ds, rest) → dash_free ds.
Proof.
  unfold Re.digits1. destruct (Re.span_digits s) as [ds' rest'] eqn:E.
  destruct ds'; [done|]. intros [= <- <-]. by eapply span_digits_dash_free.
Qed.

Lemma letter_two_digits_dash_free letter s p rest :
  Ascii.eqb letter "-" = false →
  letter_two_digits letter s = Some (p, rest) → dash_free p.
Proof.
  intros Hl. unfold letter_two_digits.
  destruct s as [|l [|a [|b s]]]; try done.
  destruct (Ascii.eqb l letter) eqn:E1; [|done].
  destruct (Py.is_digit a) eqn:E2; [|done].
  destruct (Py.is_digit b) eqn:E3; [|done]. simpl.
  intros [= <- <-]. apply Ascii.eqb_eq in E1. subst l.
  unfold dash_free. simpl. by rewrite Hl, !digit_not_dash.
Qed.

Lemma default_pattern_dash_free : groups_dash_free _FILENAME_PATTERN.
Proof.
  intros f v k n. unfold _FILENAME_PATTERN.
  destruct (Re.strip_prefix "lsst_e_" f) as [r0|]; [|done]. cbn [mbind option_bind].
  destruct (Re.digits1 r0) as [[visit r1]|] eqn:E1; [|done]. cbn [mbind option_bind].
  destruct (Re.strip_prefix "_" _) as [r2|]; [|done]. cbn [mbind option_bind].
  destruct (letter_two_digits "R" r2) as [[raft r3]|] eqn:E2; [|done]. cbn [mbind option_bind].
  destruct (Re.strip_prefix "_" r3) as [r4|]; [|done]. cbn [mbind option_bind].
  destruct (letter_two_digits "S" r4) as [[sensor r5]|] eqn:E3; [|done]. cbn [mbind option_bind].
  destruct (Re.strip_prefix ".fits.gz" _) as [r6|]; [|done]. cbn [mbind option_bind].
  destruct (Re.at_end r6); [|done]. intros [= <- <- <-].
  split_and!.
  - by eapply digits1_dash_free.
  - by apply (letter_two_digits_dash_free "R" r2 raft r3).
  - by apply (letter_two_digits_dash_free "S" r4 sensor r5).
Qed.

(** What [add_sensor] does to a focal plane in order with a sensor of its
    visit: the call returns, and the raft of the sensor holds what it held
    and the sensor, unless it held one of that name. *)
Lemma add_sensor_spec fp s :
  focal_plane_ok fp → s_visit s = visit fp →
  ∃ r' out,
    add_sensor fp s =
      (Ok (), {| visit := visit fp; rafts := <[raft s := r']> (rafts fp) |}, out) ∧
    r_name r' = raft s ∧ r_visit r' = visit fp ∧
    sensors r' =
      let old := default ∅ (sensors <$> rafts fp !! raft s) in
      match old !! s_name s with
      | None => <[s_name s := s]> old
      | Some _ => old
      end.
Proof.
  intros Hfp Hv. unfold add_sensor.
  destruct (rafts fp !! raft s) as [r|] eqn:E.
  - rewrite E. destruct (Hfp _ _ E) as (Hn & Hrv & _). simpl.
    unfold Raft_add_sensor.
    rewrite (bool_decide_eq_true_2 (raft s = r_name r)) by done.
    rewrite (bool_decide_eq_true_2 (s_visit s = r_visit r)) by congruence.
    destruct (sensors r !! s_name s) as [s0|] eqn:E3.
    + rewrite (bool_decide_eq_false_2 (Some s0 = None)) by done. simpl.
      by eexists r, _.
    + rewrite (bool_decide_eq_true_2 (None = None)) by done. simpl.
      by eexists _, _.
  - unfold add_raft. simpl.
    rewrite (bool_decide_eq_true_2 (s_visit s = visit fp)) by done.
    rewrite (bool_decide_eq_true_2 (rafts fp !! raft s = None)) by done. simpl.
    rewrite lookup_insert_eq. unfold Raft_add_sensor, Raft_init.
    cbn [r_name r_visit sensors].
    rewrite (bool_decide_eq_true_2 (raft s = raft s)) by done.
    rewrite (bool_decide_eq_true_2 (s_visit s = s_visit s)) by done.
    rewrite !(lookup_empty (M:=gmap string) (s_name s)).
    rewrite (bool_decide_eq_true_2 (None = None)) by done. cbn [andb fst snd].
    rewrite insert_insert_eq. by eexists _, _.
Qed.

(** What [add_file] does to a reader in order with a file it takes. *)
Lemma add_file_spec re visits dirpath f self v k n :
  planes_ok self →
  re f = Some (v, k, n) →
  match visits with Some vs => negb (bool_decide (v ∈ vs)) | None => false end = false →
  ∃ self' fp' r' s,
    add_file re visits dirpath f self = Ok self' ∧
    focal_planes self' = <[v := fp']> (focal_planes self) ∧
    _valid_keys self' =
      {[ sensor_key v k n ]} ∪ ({[ raft_key v k ]} ∪ ({[ v ]} ∪ _valid_keys self)) ∧
    self_default_rebinning self' = self_default_rebinning self ∧
    visit fp' = v ∧ focal_plane_ok fp' ∧
    rafts fp' = <[k := r']> (default ∅ (rafts <$> focal_planes self !! v)) ∧
    s_name s = n ∧ raft s = k ∧ s_visit s = v ∧
    sensors r' =
      let old := default ∅ (sensors <$> default ∅ (rafts <$> focal_planes self !! v) !! k) in
      match old !! n with
      | None => <[n := s]> old
      | Some _ => old
      end.
Proof.
  intros Hself Hre Hvs. unfold add_file. rewrite Hre, Hvs.
  set (s := Sensor_init (path_join dirpath f) n k v None).
  set (planes := match focal_planes self !! v with
                 | None => <[v:=FocalPlane_init v]> (focal_planes self)
                 | Some _ => focal_planes self
                 end).
  set (fp := default (FocalPlane_init v) (focal_planes self !! v)).
  assert (Hfp : planes !! v = Some fp ∧ <[v := fp]> planes = <[v := fp]> (focal_planes self)
                ∧ visit fp = v ∧ focal_plane_ok fp
                ∧ rafts fp = default ∅ (rafts <$> focal_planes self !! v)).
  { unfold planes, fp. destruct (focal_planes self !! v) as [fp0|] eqn:E; simpl.
    - destruct (Hself _ _ E). done.
    - rewrite lookup_insert_eq, insert_insert_eq. by split_and!. }
  destruct Hfp as (Hl & Hins & Hv & Hok & Hr). rewrite Hl.
  destruct (add_sensor_spec fp s Hok) as (r' & out & Hadd & Hn & Hrv & Hs); [by rewrite Hv|].
  pose proof (add_sensor_ok fp s Hok) as [Hok' _].
  rewrite Hadd in Hok' |- *. simpl in Hok'.
  eexists _, {| visit := visit fp; rafts := <[k := r']> (rafts fp) |}, r', s.
  split; [done|]. simpl.
  split_and!; try done.
  - rewrite <- (insert_insert_eq planes v _ fp), Hins. by rewrite insert_insert_eq.
  - by rewrite Hr.
  - by rewrite <- Hr.
Qed.

Lemma default_lookup_Some {A B} (f : A → gmap string B) (o : option A) j x :
  default ∅ (f <$> o) !! j = Some x → ∃ y, o = Some y ∧ f y !! j = Some x.
Proof. destruct o as [y|]; simpl; [by exists y|]. by rewrite lookup_empty. Qed.

Lemma add_file_planes_ok re visits dirpath f self :
  planes_ok self →
  ∃ self', add_file re visits dirpath f self = Ok self' ∧ planes_ok self'.
Proof.
  intros Hself.
  destruct (re f) as [[[v k] n]|] eqn:Hre;
    [|exists self; unfold add_file; by rewrite Hre].
  destruct (match visits with Some vs => negb (bool_decide (v ∈ vs)) | None => false end)
    eqn:Hvs; [exists self; unfold add_file; by rewrite Hre, Hvs|].
  destruct (add_file_spec re visits dirpath f self v k n Hself Hre Hvs)
    as (self' & fp' & r' & s & Hadd & Hplanes & _ & _ & Hv & Hok & _).
  exists self'. split; [done|]. intros v0 fp0. rewrite Hplanes, lookup_insert.
  case_decide; [|exact (Hself v0 fp0)]. intros [= <-]. by subst v0.
Qed.

(** A reader in order keeps what it holds when it takes a file. *)
Lemma add_file_extends re visits dirpath f self self' :
  planes_ok self →
  add_file re visits dirpath f self = Ok self' →
  _valid_keys self ⊆ _valid_keys self' ∧
  ∀ v fp, focal_planes self !! v = Some fp →
    ∃ fp', focal_planes self' !! v = Some fp' ∧
      ∀ k r, rafts fp !! k = Some r →
        ∃ r', rafts fp' !! k = Some r' ∧
          ∀ n s, sensors r !! n = Some s → sensors r' !! n = Some s.
Proof.
  intros Hself Hadd.
  assert (Hsame : self' = self →
            _valid_keys self ⊆ _valid_keys self' ∧
            ∀ v fp, focal_planes self !! v = Some fp →
              ∃ fp', focal_planes self' !! v = Some fp' ∧
                ∀ k r, rafts fp !! k = Some r →
                  ∃ r', rafts fp' !! k = Some r' ∧
                    ∀ n s, sensors r !! n = Some s → sensors r' !! n = Some s).
  { intros ->. split; [done|]. intros v fp Hfp. exists fp. split; [done|].
    intros k r Hr. by exists r. }
  destruct (re f) as [[[v k] n]|] eqn:Hre;
    [|unfold add_file in Hadd; rewrite Hre in Hadd; apply Hsame; congruence].
  destruct (match visits with Some vs => negb (bool_decide (v ∈ vs)) | None => false end)
    eqn:Hvs;
    [unfold add_file in Hadd; rewrite Hre, Hvs in Hadd; apply Hsame; congruence|].
  clear Hsame.
  destruct (add_file_spec re visits dirpath f self v k n Hself Hre Hvs)
    as (self1 & fp' & r' & s & Hadd1 & Hplanes & Hkeys & _ & Hv & Hok & Hrafts & _ & _ & _ & Hs).
  rewrite Hadd in Hadd1. injection Hadd1 as <-.
  split.
  { rewrite Hkeys. intros x Hx. rewrite !elem_of_union. auto. }
  intros v0 fp0 Hfp0. rewrite Hplanes, lookup_insert.
  case_decide as Hv0; [|exists fp0; split; [done|]; intros k0 r0 Hr0; by exists r0].
  subst v0. exists fp'. split; [done|]. rewrite Hfp0 in Hrafts, Hs. simpl in Hrafts, Hs.
  intros k0 r0 Hr0. rewrite Hrafts, lookup_insert.
  case_decide as Hk0; [|by exists r0].
  subst k0. exists r'. split; [done|]. rewrite Hr0 in Hs. simpl in Hs.
  intros n0 s0 Hs0. rewrite Hs.
  destruct (sensors r0 !! n) as [s1|] eqn:E; [done|].
  rewrite lookup_insert_ne; [done|]. intros <-. congruence.
Qed.

(** The keys of a reader in order stay in step with what it holds. *)
Lemma add_file_keys re visits dirpath f self self' :
  groups_dash_free re →
  planes_ok self → keys_cover self → keys_resolve self →
  add_file re visits dirpath f self = Ok self' →
  keys_cover self' ∧ keys_resolve self'.
Proof.
  intros Hre_ok Hself Hcover Hresolve Hadd.
  destruct (add_file_extends _ _ _ _ _ _ Hself Hadd) as [Hsub Hext].
  destruct (re f) as [[[v k] n]|] eqn:Hre;
    [|unfold add_file in Hadd; rewrite Hre in Hadd; by injection Hadd as <-].
  destruct (match visits with Some vs => negb (bool_decide (v ∈ vs)) | None => false end)
    eqn:Hvs;
    [unfold add_file in Hadd; rewrite Hre, Hvs in Hadd; by injection Hadd as <-|].
  destruct (Hre_ok _ _ _ _ Hre) as (Hdv & Hdk & Hdn).
  destruct (add_file_spec re visits dirpath f self v k n Hself Hre Hvs)
    as (self1 & fp' & r' & s & Hadd1 & Hplanes & Hkeys & _ & Hv & Hok & Hrafts & _ & _ & _ & Hs).
  rewrite Hadd in Hadd1. injection Hadd1 as <-.
  assert (Hn : is_Some (sensors r' !! n)).
  { rewrite Hs. simpl. destruct (default ∅ _ !! n) as [s1|] eqn:E; [by rewrite E|].
    by rewrite lookup_insert_eq. }
  split.
  - intros v0 fp0. rewrite Hplanes, lookup_insert. case_decide as Hv0.
    + intros [= <-]. subst v0. split; [done|]. split.
      { rewrite Hkeys, !elem_of_union, !elem_of_singleton. auto. }
      intros k0 r0. rewrite Hrafts, lookup_insert. case_decide as Hk0.
      * intros [= <-]. subst k0. split; [done|]. split.
        { rewrite Hkeys, !elem_of_union, !elem_of_singleton. auto. }
        intros n0 s0. rewrite Hs. simpl.
        assert (Hold : default ∅ (sensors <$> default ∅ (rafts <$> focal_planes self !! v) !! k)
                         !! n0 = Some s0 →
                       dash_free n0 ∧ sensor_key v k n0 ∈ _valid_keys self').
        { intros (r1 & Hr1 & Hs1)%default_lookup_Some.
          apply default_lookup_Some in Hr1 as (fp1 & Hfp1 & Hr1).
          destruct (Hcover _ _ Hfp1) as (_ & _ & Hc).
          destruct (Hc _ _ Hr1) as (_ & _ & Hc').
          destruct (Hc' _ _ Hs1) as [? ?]. split; [done|]. by apply Hsub. }
        destruct (default ∅ _ !! n) as [s1|] eqn:E; [done|].
        rewrite lookup_insert. case_decide as Hn0; [|done].
        intros _. subst n0. split; [done|].
        rewrite Hkeys, !elem_of_union, !elem_of_singleton. auto.
      * intros (fp1 & Hfp1 & Hr1)%default_lookup_Some.
        destruct (Hcover _ _ Hfp1) as (_ & _ & Hc).
        destruct (Hc _ _ Hr1) as (? & ? & Hc'). split; [done|]. split; [by apply Hsub|].
        intros n0 s0 Hs0. destruct (Hc' _ _ Hs0). split; [done|]. by apply Hsub.
    + intros Hfp0. destruct (Hcover _ _ Hfp0) as (? & ? & Hc).
      split; [done|]. split; [by apply Hsub|].
      intros k0 r0 Hr0. destruct (Hc _ _ Hr0) as (? & ? & Hc').
      split; [done|]. split; [by apply Hsub|].
      intros n0 s0 Hs0. destruct (Hc' _ _ Hs0). split; [done|]. by apply Hsub.
  - assert (Hfp' : focal_planes self' !! v = Some fp')
      by (by rewrite Hplanes, lookup_insert_eq).
    assert (Hr' : rafts fp' !! k = Some r') by (by rewrite Hrafts, lookup_insert_eq).
    destruct Hn as [s1 Hs1].
    intros key. rewrite Hkeys, !elem_of_union, !elem_of_singleton.
    intros [->|[->|[->|Hkey]]].
    + exists v, fp'. split; [done|]. right. exists k, r'. split; [done|]. right.
      by exists n, s1.
    + exists v, fp'. split; [done|]. right. exists k, r'. split; [done|]. by left.
    + exists v, fp'. split; [done|]. by left.
    + destruct (Hresolve _ Hkey) as (v0 & fp0 & Hfp0 & Hcase).
      destruct (Hext _ _ Hfp0) as (fp0' & Hfp0' & Hext').
      exists v0, fp0'. split; [done|].
      destruct Hcase as [->|(k0 & r0 & Hr0 & Hcase)]; [by left|]. right.
      destruct (Hext' _ _ Hr0) as (r0' & Hr0' & Hext'').
      exists k0, r0'. split; [done|].
      destruct Hcase as [->|(n0 & s0 & Hs0 & ->)]; [by left|]. right.
      exists n0, s0. split; [by apply Hext''|done].
Qed.

Lemma add_files_planes_ok re visits dirpath filenames self :
  planes_ok self →
  ∃ self', add_files re visits dirpath filenames self = Ok self' ∧ planes_ok self'.
Proof.
  revert self. induction filenames as [|f l IH]; intros self Hself; simpl.
  - by exists self.
  - destruct (add_file_planes_ok re visits dirpath f self Hself) as (self1 & -> & H1).
    simpl. by apply IH.
Qed.

Lemma walk_loop_planes_ok re visits contain walk self :
  planes_ok self →
  ∃ self', walk_loop re visits contain walk self = Ok self' ∧ planes_ok self'.
Proof.
  revert self. induction walk as [|[dirpath filenames] walk IH]; intros self Hself; simpl.
  - by exists self.
  - destruct (match contain with
              | Some sub => negb (String.eqb sub "") && negb (str_in sub dirpath)
              | None => false
              end); [by apply IH|].
    destruct (add_files_planes_ok re visits dirpath filenames self Hself) as (self1 & -> & H1).
    simpl. by apply IH.
Qed.

Lemma add_files_keys re visits dirpath filenames self self' :
  groups_dash_free re →
  planes_ok self → keys_cover self → keys_resolve self →
  add_files re visits dirpath filenames self = Ok self' →
  keys_cover self' ∧ keys_resolve self'.
Proof.
  intros Hre. revert self. induction filenames as [|f l IH]; intros self Hself Hc Hr; simpl.
  - by intros [= <-].
  - destruct (add_file_planes_ok re visits dirpath f self Hself) as (self1 & E & H1).
    rewrite E. simpl.
    destruct (add_file_keys _ _ _ _ _ _ Hre Hself Hc Hr E). by apply IH.
Qed.

Lemma walk_loop_keys re visits contain walk self self' :
  groups_dash_free re →
  planes_ok self → keys_cover self → keys_resolve self →
  walk_loop re visits contain walk self = Ok self' →
  keys_cover self' ∧ keys_resolve self'.
Proof.
  intros Hre. revert self.
  induction walk as [|[dirpath filenames] walk IH]; intros self Hself Hc Hr; simpl.
  - by intros [= <-].
  - destruct (match contain with
              | Some sub => negb (String.eqb sub "") && negb (str_in sub dirpath)
              | None => false
              end); [by apply IH|].
    destruct (add_files_planes_ok re visits dirpath filenames self Hself) as (self1 & E & H1).
    rewrite E. simpl.
    destruct (add_files_keys _ _ _ _ _ _ Hre Hself Hc Hr E). by apply IH.
Qed.

Lemma empty_reader_ok rebinning :
  planes_ok (empty_reader rebinning) ∧ keys_cover (empty_reader rebinning) ∧
  keys_resolve (empty_reader rebinning).
Proof.
  split_and!.
  - intros v fp. simpl. by rewrite lookup_empty.
  - intros v fp. simpl. by rewrite lookup_empty.
  - intros key. simpl. by rewrite elem_of_empty.
Qed.

Lemma subclass_init_ok W root_dir visits rebinning contain re reader :
  _subclass_init W root_dir visits rebinning contain re = Ok reader →
  planes_ok reader ∧
  (groups_dash_free (default _FILENAME_PATTERN re) → keys_cover reader ∧ keys_resolve reader).
Proof.
  unfold _subclass_init. destruct (W !! root_dir) as [walk|]; [|done].
  destruct (check_visits visits) as [vs|e]; simpl; [|done].
  destruct (empty_reader_ok (rebinning_or_1 rebinning)) as (H1 & H2 & H3).
  intros Hwalk.
  change (walk_loop (default _FILENAME_PATTERN re) vs contain walk
            (empty_reader (rebinning_or_1 rebinning)) = Ok reader) in Hwalk.
  split.
  - destruct (walk_loop_planes_ok (default _FILENAME_PATTERN re) vs contain walk _ H1)
      as (self' & E & H). rewrite Hwalk in E. by injection E as <-.
  - intros Hre. by eapply walk_loop_keys.
Qed.

(** What [__getitem__] returns for the keys of what a reader holds. *)
Lemma getitem_keys self v fp :
  planes_ok self → keys_cover self →
  focal_planes self !! v = Some fp →
  getitem self v = Ok (FocalPlaneNode fp) ∧
  ∀ k r, rafts fp !! k = Some r →
    getitem self (raft_key v k) = Ok (RaftNode r) ∧
    ∀ n s, sensors r !! n = Some s →
      getitem self (sensor_key v k n) = Ok (SensorNode s).
Proof.
  intros Hself Hcover Hfp. destruct (Hcover _ _ Hfp) as (Hdv & Hv & Hc).
  split.
  { unfold getitem, contains. rewrite bool_decide_eq_true_2 by done. simpl.
    rewrite split_no_sep by done. by rewrite Hfp. }
  intros k r Hr. destruct (Hc _ _ Hr) as (Hdk & Hk & Hc').
  split.
  { unfold getitem, contains. rewrite bool_decide_eq_true_2 by done. simpl.
    change (raft_key v k) with (v ++ String "-" k).
    rewrite split_app by done. rewrite split_no_sep by done. by rewrite Hfp, Hr. }
  intros n s Hs. destruct (Hc' _ _ Hs) as (Hdn & Hn).
  unfold getitem, contains. rewrite bool_decide_eq_true_2 by done. simpl.
  change (sensor_key v k n) with (v ++ String "-" (k ++ String "-" n)).
  rewrite !split_app by done. rewrite split_no_sep by done. by rewrite Hfp, Hr, Hs.
Qed.

Lemma getitem_valid self key :
  planes_ok self → keys_cover self → keys_resolve self →
  key ∈ _valid_keys self → ∃ node, getitem self key = Ok node.
Proof.
  intros Hself Hcover Hresolve Hkey.
  destruct (Hresolve _ Hkey) as (v & fp & Hfp & Hcase).
  destruct (getitem_keys self v fp Hself Hcover Hfp) as [H1 H2].
  destruct Hcase as [->|(k & r & Hr & Hcase)]; [eauto|].
  destruct (H2 _ _ Hr) as [H3 H4].
  destruct Hcase as [->|(n & s & Hs & ->)]; [eauto|].
  eauto.
Qed.

Lemma getitem_invalid self key :
  key ∉ _valid_keys self → getitem self key = Raise (KeyError "{} does not exist!").
Proof.
  intros H. unfold getitem, contains. by rewrite bool_decide_eq_false_2.
Qed.

Lemma add_files_invariant (P : t → Prop) re visits dirpath filenames self self' :
  (∀ dirpath f self self',
     planes_ok self → P self → add_file re visits dirpath f self = Ok self' → P self') →
  planes_ok self → P self →
  add_files re visits dirpath filenames self = Ok self' → P self'.
Proof.
  intros Hstep. revert self. induction filenames as [|f l IH]; intros self Hself HP; simpl.
  - by intros [= <-].
  - destruct (add_file_planes_ok re visits dirpath f self Hself) as (self1 & E & H1).
    rewrite E. simpl. apply IH; [done|]. exact (Hstep _ _ _ _ Hself HP E).
Qed.

Lemma walk_loop_invariant (P : t → Prop) re visits contain walk self self' :
  (∀ dirpath f self self',
     planes_ok self → P self → add_file re visits dirpath f self = Ok self' → P self') →
  planes_ok self → P self →
  walk_loop re visits contain walk self = Ok self' → P self'.
Proof.
  intros Hstep. revert self.
  induction walk as [|[dirpath filenames] walk IH]; intros self Hself HP; simpl.
  - by intros [= <-].
  - destruct (match contain with
              | Some sub => negb (String.eqb sub "") && negb (str_in sub dirpath)
              | None => false
              end); [by apply IH|].
    destruct (add_files_planes_ok re visits dirpath filenames self Hself) as (self1 & E & H1).
    rewrite E. simpl. apply IH; [done|].
    exact (add_files_invariant P _ _ _ _ _ _ Hstep Hself HP E).
Qed.


Lemma check_visits_asked visits vs v :
  check_visits visits = Ok (Some vs) → v ∈ vs → asked_for visits v.
Proof.
  destruct visits as [[text|items]|]; simpl; [| |done].
  - destruct (bool_decide _); [done|]. destruct (negb _); [done|].
    intros [= <-]. by intros ->%elem_of_singleton.
  - destruct (bool_decide _); [done|]. destruct (negb _); [done|].
    intros [= <-]. by intros ?%elem_of_list_to_set.
Qed.

Lemma add_file_visits re vs dirpath f self self' :
  planes_ok self →
  (∀ v, is_Some (focal_planes self !! v) → v ∈ vs) →
  add_file re (Some vs) dirpath f self = Ok self' →
  ∀ v, is_Some (focal_planes self' !! v) → v ∈ vs.
Proof.
  intros Hself HP Hadd.
  destruct (re f) as [[[v k] n]|] eqn:Hre;
    [|unfold add_file in Hadd; rewrite Hre in Hadd; by injection Hadd as <-].
  destruct (negb (bool_decide (v ∈ vs))) eqn:Hvs;
    [unfold add_file in Hadd; rewrite Hre, Hvs in Hadd; by injection Hadd as <-|].
  destruct (add_file_spec re (Some vs) dirpath f self v k n Hself Hre Hvs)
    as (self1 & fp' & r' & s & Hadd1 & Hplanes & _).
  rewrite Hadd in Hadd1. injection Hadd1 as <-. clear Hadd.
  apply negb_false_iff in Hvs. apply bool_decide_eq_true in Hvs.
  intros v0. rewrite Hplanes, lookup_insert.
  destruct (decide (v = v0)) as [<-|Hv0]; [done|by apply HP].
Qed.

Lemma rebinning_or_1_nonzero r : Qeq_bool (rebinning_or_1 r) 0 = false.
Proof.
  unfold rebinning_or_1. destruct r as [q|]; [|done].
  by destruct (Qeq_bool q 0) eqn:E.
Qed.

(** X21. A reader that was constructed resolves exactly its native
    quantities: [__getitem__] returns for every valid key and raises
    KeyError for every other key, when the groups of the file name pattern
    hold no [-]. *)
Theorem valid_keys_resolve W root_dir visits rebinning contain re reader key :
  _subclass_init W root_dir visits rebinning contain re = Ok reader →
  groups_dash_free (default _FILENAME_PATTERN re) →
  (key ∈ _generate_native_quantity_list reader → ∃ node, getitem reader key = Ok node) ∧
  (key ∉ _generate_native_quantity_list reader →
   getitem reader key = Raise (KeyError "{} does not exist!")).
Proof.
  intros Hinit Hre. destruct (subclass_init_ok _ _ _ _ _ _ _ Hinit) as [H1 H2].
  destruct (H2 Hre) as [H3 H4]. split.
  - by apply getitem_valid.
  - apply getitem_invalid.
Qed.

Lemma valid_keys_resolve_witness :
  ∃ reader, _subclass_init example_tree "images" None None None None = Ok reader ∧
    ("219976-R22" ∈ _generate_native_quantity_list reader →
     ∃ node, getitem reader "219976-R22" = Ok node) ∧
    ("219976-R23" ∉ _generate_native_quantity_list reader →
     getitem reader "219976-R23" = Raise (KeyError "{} does not exist!")).
Proof.
  destruct (_subclass_init example_tree "images" None None None None) as [reader|e] eqn:E.
  - exists reader. split; [done|].
    split.
    + apply (valid_keys_resolve example_tree "images" None None None None reader
               "219976-R22" E default_pattern_dash_free).
    + apply (valid_keys_resolve example_tree "images" None None None None reader
               "219976-R23" E default_pattern_dash_free).
  - exfalso. revert E. vm_compute. discriminate.
Defined.

(** X22. In a reader that was constructed, every sensor is stored under
    its own visit, raft and name, and the keys made of these names return
    the sensor, its raft and its focal plane. *)
Theorem holdings_reachable W root_dir visits rebinning contain re reader v fp k r n s :
  _subclass_init W root_dir visits rebinning contain re = Ok reader →
  groups_dash_free (default _FILENAME_PATTERN re) →
  focal_planes reader !! v = Some fp → rafts fp !! k = Some r → sensors r !! n = Some s →
  s_visit s = v ∧ raft s = k ∧ s_name s = n ∧
  getitem reader v = Ok (FocalPlaneNode fp) ∧
  getitem reader (raft_key v k) = Ok (RaftNode r) ∧
  getitem reader (sensor_key v k n) = Ok (SensorNode s).
Proof.
  intros Hinit Hre Hfp Hr Hs. destruct (subclass_init_ok _ _ _ _ _ _ _ Hinit) as [H1 H2].
  destruct (H2 Hre) as [H3 H4].
  destruct (H1 _ _ Hfp) as [Hv Hok]. destruct (Hok _ _ Hr) as (Hk & Hrv & Hrok).
  destruct (Hrok _ _ Hs) as (Hn & Hsr & Hsv).
  destruct (getitem_keys reader v fp H1 H3 Hfp) as [G1 G2].
  destruct (G2 _ _ Hr) as [G3 G4].
  split_and!; [congruence|congruence|done|done|done|by apply G4].
Qed.


(** X24. A reader constructed with [visits] holds focal planes only for
    visits that were asked for. *)
Theorem visits_respected W root_dir visits rebinning contain re reader v fp :
  _subclass_init W root_dir visits rebinning contain re = Ok reader →
  focal_planes reader !! v = Some fp →
  asked_for visits v.
Proof.
  unfold _subclass_init. destruct (W !! root_dir) as [walk|]; [|done].
  destruct (check_visits visits) as [vs|e] eqn:Ev; simpl; [|done].
  intros Hwalk Hfp.
  destruct vs as [vs|].
  2:{ destruct visits as [[text|items]|]; [| |done]; simpl in Ev.
      all: destruct (bool_decide _); [done|]; by destruct (negb _). }
  apply (check_visits_asked visits vs v Ev).
  destruct (empty_reader_ok (rebinning_or_1 rebinning)) as (H1 & _).
  eapply (walk_loop_invariant (λ self, ∀ v, is_Some (focal_planes self !! v) → v ∈ vs)
            _ _ _ _ _ _ (add_file_visits _ vs) H1); [|exact Hwalk|by eexists].
  intros v0. simpl. rewrite lookup_empty. by intros [? ?].
Qed.

(** X25. A sensor never divides by zero with its default rebinning:
    [get_data()] returns the stored image for a default of None, 0 or 1, and
    the image rescaled by the inverse of any other default. *)
Theorem get_data_default_returns path name raft visit (rebinning : option Q) :
  get_data (Sensor_init path name raft visit rebinning) None =
    Ok (if Qeq_bool (rebinning_or_1 rebinning) 1 then FitsFile_data path
        else rescale (FitsFile_data path) (1 / rebinning_or_1 rebinning)%Q) ∧
  get_data (Sensor_init path name raft visit rebinning) (Some 0%Q) = Raise ZeroDivisionError.
Proof.
  split; [|done]. unfold get_data. simpl.
  destruct (Qeq_bool (rebinning_or_1 rebinning) 1); simpl; [done|].
  by rewrite rebinning_or_1_nonzero.
Qed.

Lemma holdings_reachable_witness :
  ∃ reader fp r,
    _subclass_init example_tree "images" None None None None = Ok reader ∧
    focal_planes reader !! "219976" = Some fp ∧ rafts fp !! "R22" = Some r ∧
    sensors r !! "S11" = Some example_sensor ∧
    getitem reader "219976" = Ok (FocalPlaneNode fp) ∧
    getitem reader "219976-R22" = Ok (RaftNode r) ∧
    getitem reader "219976-R22-S11" = Ok (SensorNode example_sensor).
Proof.
  destruct (_subclass_init example_tree "images" None None None None) as [reader|e] eqn:E;
    [|exfalso; revert E; vm_compute; discriminate].
  destruct (focal_planes reader !! "219976") as [fp|] eqn:Efp;
    [|exfalso; revert Efp; vm_compute in E; injection E as <-; vm_compute; discriminate].
  destruct (rafts fp !! "R22") as [r|] eqn:Er;
    [|exfalso; revert Er; vm_compute in E; injection E as <-;
      vm_compute in Efp; injection Efp as <-; vm_compute; discriminate].
  assert (Es : sensors r !! "S11" = Some example_sensor).
  { vm_compute in E. injection E as <-. vm_compute in Efp. injection Efp as <-.
    vm_compute in Er. injection Er as <-. vm_compute. reflexivity. }
  exists reader, fp, r. split; [done|]. split; [done|]. split; [done|]. split; [done|].
  apply (holdings_reachable example_tree "images" None None None None reader
           "219976" fp "R22" r "S11" example_sensor E default_pattern_dash_free Efp Er Es).
Defined.

Lemma visits_respected_witness :
  ∃ reader fp,
    _subclass_init example_tree "images" (Some (Visits ["5"; "219976"])) None None None
      = Ok reader ∧
    focal_planes reader !! "219976" = Some fp ∧
    asked_for (Some (Visits ["5"; "219976"])) "219976".
Proof.
  destruct (_subclass_init example_tree "images" (Some (Visits ["5"; "219976"])) None None None)
    as [reader|e] eqn:E; [|exfalso; revert E; vm_compute; discriminate].
  destruct (focal_planes reader !! "219976") as [fp|] eqn:Efp;
    [|exfalso; revert Efp; vm_compute in E; injection E as <-; vm_compute; discriminate].
  exists reader, fp. split; [done|]. split; [done|].
  apply (visits_respected example_tree "images" (Some (Visits ["5"; "219976"])) None None None
           reader "219976" fp E Efp).
Defined.

End reader_properties.
